(** * depth-view: depth normalisation, colour mapping, playback and capture

    A shallow embedding of [depthview/depth_view.py] and
    [depthview/zed_capture.py].

    - Floating-point pixels are IEEE 754 values ([spec_float]) with the
      operations of the Standard Library's [SpecFloat], instantiated at the
      array's dtype (binary32 or binary64).
    - A Python call that may raise returns a [result]: a value, or the class
      name of the exception that escapes.
    - Calls into OpenCV, Open3D, the ZED SDK, the file system and the console
      are recorded as a trace of [event]s; what those libraries answer is an
      input of the model. *)

From Stdlib Require Import ZArith List String Ascii Bool Lia SpecFloat.
From Stdlib Require Import DecimalString DecimalNat Sorting.Sorted Sorting.Permutation.
Import ListNotations.
Open Scope Z_scope.

(** ** Python results *)

Module Py.

(** A call either returns or lets an exception escape; the exception is
    identified by its class name. *)
Inductive result (A : Type) : Type :=
| Ok (a : A)
| Raise (cls : string).
Arguments Ok {A} a.
Arguments Raise {A} cls.

Definition bind {A B} (r : result A) (k : A -> result B) : result B :=
  match r with
  | Ok a => k a
  | Raise c => Raise c
  end.

Definition fmap {A B} (f : A -> B) (r : result A) : result B :=
  bind r (fun a => Ok (f a)).

End Py.
Export Py.

Declare Scope py_scope.
Delimit Scope py_scope with py.
Notation "x <- r ;; k" := (Py.bind r (fun x => k))
  (at level 61, r at next level, right associativity) : py_scope.
Open Scope py_scope.

(** ** NumPy: float dtypes, scalars, arrays *)

Module NumPy.

(** The floating dtypes a depth frame is stored in. *)
Inductive dtype := float32 | float64.

Definition prec (dt : dtype) : Z :=
  match dt with float32 => 24 | float64 => 53 end.

Definition emax (dt : dtype) : Z :=
  match dt with float32 => 128 | float64 => 1024 end.

Definition fsub dt := SFsub (prec dt) (emax dt).
Definition fdiv dt := SFdiv (prec dt) (emax dt).
Definition fmul dt := SFmul (prec dt) (emax dt).

(** The float of dtype [dt] nearest to the integer [n]. *)
Definition of_Z (dt : dtype) (n : Z) : spec_float :=
  binary_normalize (prec dt) (emax dt) n 0 false.

(** Conversion of a float to dtype [dt] (round to nearest even). *)
Definition as_dtype (dt : dtype) (x : spec_float) : spec_float :=
  match x with
  | S754_finite s m e => binary_round (prec dt) (emax dt) s m e
  | _ => x
  end.

(** [np.isfinite]: neither NaN nor an infinity. *)
Definition isfinite (x : spec_float) : bool :=
  match x with
  | S754_zero _ | S754_finite _ _ _ => true
  | S754_infinity _ | S754_nan => false
  end.

Definition isnan (x : spec_float) : bool :=
  match x with S754_nan => true | _ => false end.

Definition is_zero (x : spec_float) : bool :=
  match x with S754_zero _ => true | _ => false end.

(** Finite and not a zero. *)
Definition finite_nonzero (x : spec_float) : bool :=
  match x with S754_finite _ _ _ => true | _ => false end.

(** A value an array of dtype [d] can hold: a finite one has its one
    canonical mantissa and exponent, within the format's range. *)
Definition valid (d : dtype) (x : spec_float) : bool :=
  valid_binary (prec d) (emax d) x.

(** A scalar operand: a Python [float] (binary64; it adopts the dtype of
    the array or NumPy scalar it meets, as NumPy 2 promotes) or a NumPy
    scalar of the array's dtype. *)
Inductive scalar :=
| PyFloat (x : spec_float)
| NpFloat (x : spec_float).

(** The value a scalar contributes to an operation carried out in [dt]. *)
Definition in_dtype (dt : dtype) (v : scalar) : spec_float :=
  match v with
  | PyFloat x => as_dtype dt x
  | NpFloat x => x
  end.

(** [a - b] on two scalars. Two Python floats subtract in binary64 and
    stay a Python float; otherwise the operation is done in [dt]. *)
Definition scalar_sub (dt : dtype) (a b : scalar) : scalar :=
  match a, b with
  | PyFloat x, PyFloat y => PyFloat (fsub float64 x y)
  | _, _ => NpFloat (fsub dt (in_dtype dt a) (in_dtype dt b))
  end.

(** An n-dimensional array, row-major. *)
Record ndarray (A : Type) : Type := mk_ndarray {
  shape : list nat;
  data : list A
}.
Arguments mk_ndarray {A} shape data.
Arguments shape {A} n.
Arguments data {A} n.

Definition amap {A B} (f : A -> B) (a : ndarray A) : ndarray B :=
  mk_ndarray (shape a) (map f (data a)).

(** A depth frame: its dtype and its pixels. *)
Record depth_array := mk_depth {
  dt : dtype;
  px : ndarray spec_float
}.

(** [np.fmin] / [np.fmax] on two elements: the second operand wins only
    when the comparison fails and it is not NaN. *)
Definition fmin (a b : spec_float) : spec_float :=
  if SFleb a b || isnan b then a else b.

Definition fmax (a b : spec_float) : spec_float :=
  if SFleb b a || isnan b then a else b.

(** [ufunc.reduce] over a 1-d array; a reduction without identity raises
    [ValueError] on a zero-size array. *)
Definition reduce (f : spec_float -> spec_float -> spec_float)
    (l : list spec_float) : result spec_float :=
  match l with
  | [] => Raise "ValueError"
  | x :: t => Ok (fold_left f t x)
  end.

Definition nanmin (l : list spec_float) : result spec_float := reduce fmin l.
Definition nanmax (l : list spec_float) : result spec_float := reduce fmax l.

(** Truncation toward zero of a finite float; [None] for NaN and the
    infinities. *)
Definition trunc (x : spec_float) : option Z :=
  match x with
  | S754_zero _ => Some 0
  | S754_finite s m e => Some (cond_Zopp s (Z.shiftl (Zpos m) e))
  | S754_infinity _ | S754_nan => None
  end.

(** [astype(np.uint8)] on one element. A value whose truncation lies in
    [0, 255] converts to it. For any other value (NaN, infinities, out of
    range) the C conversion is not defined; [wild] is what the platform
    stores there, kept to 8 bits. *)
Definition astype_uint8 (wild : spec_float -> Z) (x : spec_float) : Z :=
  match trunc x with
  | Some n => if (0 <=? n) && (n <=? 255) then n else wild x mod 256
  | None => wild x mod 256
  end.

(** What an x86-64 build stores for a value outside the range: the
    truncation to a 32-bit integer, of which the low byte is kept; NaN,
    infinities and values beyond 32 bits give the "integer indefinite"
    value [-2^31], whose low byte is 0. *)
Definition wild_x86_64 (x : spec_float) : Z :=
  match trunc x with
  | Some n => if (- 2 ^ 31 <=? n) && (n <? 2 ^ 31) then n else - 2 ^ 31
  | None => - 2 ^ 31
  end.

End NumPy.
Export NumPy.

(** ** Python built-ins used by the two modules *)

Module Builtins.

(** [float(n)] for an [int]: an integer too large for binary64 raises. *)
Definition py_float_of_int (n : Z) : result spec_float :=
  let x := of_Z float64 n in
  if isfinite x then Ok x else Raise "OverflowError".

(** [int(x)] for a [float]: truncation toward zero. *)
Definition py_int (x : spec_float) : result Z :=
  match x with
  | S754_nan => Raise "ValueError"
  | S754_infinity _ => Raise "OverflowError"
  | _ => match trunc x with Some n => Ok n | None => Raise "OverflowError" end
  end.

(** [n * rate] for an [int] and a [float]. *)
Definition int_times_float (n : Z) (rate : spec_float) : result spec_float :=
  x <- py_float_of_int n ;;
  Ok (fmul float64 x rate).

(** [int(n * rate)] for a dimension [n]. *)
Definition scaled_dim (n : nat) (rate : spec_float) : result Z :=
  x <- int_times_float (Z.of_nat n) rate ;;
  py_int x.

Fixpoint string_of_list (l : list ascii) : string :=
  match l with
  | [] => EmptyString
  | c :: t => String c (string_of_list t)
  end.

(** [sub in s]. *)
Fixpoint contains (sub s : string) : bool :=
  prefix sub s ||
  match s with
  | EmptyString => false
  | String _ t => contains sub t
  end.

Definition string_rev (s : string) : string :=
  string_of_list (rev (list_ascii_of_string s)).

(** [s.endswith(suffix)]. *)
Definition endswith (s suffix : string) : bool :=
  prefix (string_rev suffix) (string_rev s).

(** [s.replace(c, empty)] for a one-character [c]: the character is
    dropped. *)
Definition remove_char (c : ascii) (s : string) : string :=
  string_of_list (filter (fun x => negb (Ascii.eqb x c)) (list_ascii_of_string s)).

Definition is_digit (c : ascii) : bool :=
  let n := nat_of_ascii c in (48 <=? n)%nat && (n <=? 57)%nat.

(** [s.isdigit()]: non-empty and only digits (ASCII strings). *)
Definition isdigit (s : string) : bool :=
  match s with
  | EmptyString => false
  | _ => forallb is_digit (list_ascii_of_string s)
  end.

(** [s.split(c)] for a one-character separator [c]. *)
Fixpoint split_on (c : ascii) (s : string) : list string :=
  match s with
  | EmptyString => [EmptyString]
  | String x t =>
      if Ascii.eqb x c then EmptyString :: split_on c t
      else match split_on c t with
           | [] => [String x EmptyString]
           | w :: ws => String x w :: ws
           end
  end.

(** [int(s)] on a string made of digits and dots only (what the address
    check of the capture module lets through): the decimal value, or
    [ValueError] when the string is empty or holds a dot. *)
Definition int_of_string (s : string) : result Z :=
  if isdigit s then
    Ok (fold_left (fun acc c => 10 * acc + (Z.of_nat (nat_of_ascii c) - 48))
                  (list_ascii_of_string s) 0)
  else Raise "ValueError".

(** [f"{n:05d}"]. *)
Definition fmt_05d (n : nat) : string :=
  let d := NilEmpty.string_of_uint (Nat.to_uint n) in
  string_of_list (repeat "0"%char (5 - String.length d)) ++ d.

(** A [pathlib] path: its components. *)
Definition path := list string.

Definition path_div (p : path) (name : string) : path := p ++ [name].

(** [str(p)]. *)
Definition path_str (p : path) : string := String.concat "/" p.

(** [p < q]: component by component. *)
Fixpoint path_ltb (p q : path) : bool :=
  match p, q with
  | _, [] => false
  | [], _ :: _ => true
  | x :: p', y :: q' =>
      if String.ltb x y then true
      else if String.eqb x y then path_ltb p' q' else false
  end.

(** [not (q < p)]. *)
Definition path_le (p q : path) : Prop := path_ltb q p = false.

(** [sorted(l)]: a stable sort that compares with [<] only. *)
Fixpoint insert_sorted (x : path) (l : list path) : list path :=
  match l with
  | [] => [x]
  | y :: t => if path_ltb x y then x :: y :: t else y :: insert_sorted x t
  end.

Definition sorted (l : list path) : list path :=
  fold_left (fun acc x => insert_sorted x acc) l [].

End Builtins.
Export Builtins.

(** ** The ZED SDK's parameter types, as far as the capture module uses them *)

Module Sl.

Inductive RESOLUTION := HD2K | HD1200 | HD1080 | HD720 | SVGA | VGA.

Inductive DEPTH_MODE := ULTRA.

Inductive REFERENCE_FRAME := WORLD.

Inductive ERROR_CODE :=
| SUCCESS
| FAILURE (code : Z).

Definition is_success (c : ERROR_CODE) : bool :=
  match c with SUCCESS => true | FAILURE _ => false end.

Inductive input_type :=
| FromSVO (file : string)
| FromStream (ip : string) (port : option Z).

(** [sl.InitParameters]: a field the program has not assigned is [None]
    and keeps the SDK's own default. *)
Record InitParameters := mk_init {
  input : option input_type;
  camera_resolution : option RESOLUTION;
  depth_mode : option DEPTH_MODE
}.

(** [sl.InitParameters()]. *)
Definition fresh_init : InitParameters := mk_init None None None.

Definition set_input (i : input_type) (p : InitParameters) :=
  mk_init (Some i) (camera_resolution p) (depth_mode p).
Definition set_camera_resolution (r : RESOLUTION) (p : InitParameters) :=
  mk_init (input p) (Some r) (depth_mode p).
Definition set_depth_mode (m : DEPTH_MODE) (p : InitParameters) :=
  mk_init (input p) (camera_resolution p) (Some m).

Record RuntimeParameters := mk_runtime {
  measure3D_reference_frame : option REFERENCE_FRAME;
  confidence_threshold : spec_float
}.

End Sl.
Export Sl.

(** ** Effects: what the program does to the outside world *)

Module Effects.

(** A line written to standard output. *)
Inductive message :=
| Text (s : string)
| ErrorRepr (c : ERROR_CODE)
| ThresholdRepr (x : spec_float).

Inductive event :=
| Stdout (m : message)
| Mkdir (p : path)
| CameraOpen (p : InitParameters)
| CameraClose
| Grab (rp : RuntimeParameters)
| SaveJson (p : path)
| NamedWindow (title : string)
| Imwrite (p : path) (img : ndarray Z)
| NpSave (p : path) (a : depth_array)
| Imshow (title : string) (img : ndarray Z)
| WaitKey (ms : Z)
| Sleep (sec : Z)
| CreateWindow
| AddGeometry (color depth : path)
| UpdateGeometry (color depth : path)
| PollEvents
| UpdateRenderer
| DestroyWindow.

(** How a run ends: it returns, an exception escapes, [exit] is called,
    or it is still in its loop waiting for the next frame. *)
Inductive ending (A : Type) : Type :=
| Done (a : A)
| Raised (cls : string)
| Exited (code : Z)
| Waiting.
Arguments Done {A} a.
Arguments Raised {A} cls.
Arguments Exited {A} code.
Arguments Waiting {A}.

(** A run: the events so far, in order, and how it ended. *)
Definition io (A : Type) : Type := (list event * ending A)%type.

Definition ret {A} (a : A) : io A := ([], Done a).

Definition emit (e : event) : io unit := ([e], Done tt).

Definition exit {A} (code : Z) : io A := ([], Exited code).

Definition lift {A} (r : result A) : io A :=
  match r with
  | Ok a => ([], Done a)
  | Raise c => ([], Raised c)
  end.

Definition seq {A B} (m : io A) (k : A -> io B) : io B :=
  match m with
  | (t, Done a) => let '(t', e) := k a in (t ++ t', e)
  | (t, Raised c) => (t, Raised c)
  | (t, Exited n) => (t, Exited n)
  | (t, Waiting) => (t, Waiting)
  end.

(** [assert b]. *)
Definition assert (b : bool) : io unit :=
  if b then ret tt else ([], Raised "AssertionError").

(** [time.sleep(sec)]. *)
Definition sleep (sec : Z) : io unit :=
  if sec <? 0 then ([], Raised "ValueError") else emit (Sleep sec).

(** [for x in l: body(x)]. *)
Fixpoint for_each {A} (body : A -> io unit) (l : list A) : io unit :=
  match l with
  | [] => ret tt
  | x :: t => seq (body x) (fun _ => for_each body t)
  end.

Definition trace {A} (m : io A) : list event := fst m.
Definition outcome {A} (m : io A) : ending A := snd m.

(** Every event of a run satisfies [P]. *)
Definition only {A} (P : event -> Prop) (m : io A) : Prop :=
  Forall P (trace m).

(** Events that are not the opening of the camera. *)
Definition not_an_open (e : event) : Prop :=
  match e with CameraOpen _ => False | _ => True end.

(** Events that release nothing: neither the camera is closed nor a
    window destroyed. *)
Definition not_a_release (e : event) : Prop :=
  match e with CameraClose | DestroyWindow => False | _ => True end.

(** The camera is opened with resolution [r], if it is opened. *)
Definition opens_with (r : RESOLUTION) (e : event) : Prop :=
  match e with CameraOpen p => camera_resolution p = Some r | _ => True end.

End Effects.
Export Effects.

Declare Scope io_scope.
Delimit Scope io_scope with io.
Notation "x <~ m ;; k" := (Effects.seq m (fun x => k))
  (at level 61, m at next level, right associativity) : io_scope.
Notation "m ;;; k" := (Effects.seq m (fun _ => k))
  (at level 61, right associativity) : io_scope.
Open Scope io_scope.

(** ** OpenCV and NumPy array operations the modules call *)

Module Cv2.

Inductive colormap := COLORMAP_JET | COLORMAP_INFERNO.

(** [k] consecutive blocks of [n] elements. *)
Fixpoint chunks {A} (n k : nat) (l : list A) : list (list A) :=
  match k with
  | O => []
  | S k' => firstn n l :: chunks n k' (skipn n l)
  end.

Definition size_of (sh : list nat) : nat := fold_right Nat.mul 1%nat sh.

Fixpoint zip_app {A} (a b : list (list A)) : list A :=
  match a, b with
  | x :: a', y :: b' => x ++ y ++ zip_app a' b'
  | _, _ => []
  end.

Fixpoint shape_eqb (a b : list nat) : bool :=
  match a, b with
  | [], [] => true
  | x :: a', y :: b' => (x =? y)%nat && shape_eqb a' b'
  | _, _ => false
  end.

(** [np.concatenate((a, b), axis=1)]. *)
Definition concatenate_axis1 (a b : ndarray Z) : result (ndarray Z) :=
  match shape a with
  | [] => Raise "ValueError"
  | [_] => Raise "AxisError"
  | h :: w :: r =>
      match shape b with
      | h' :: w' :: r' =>
          if (h =? h')%nat && shape_eqb r r' then
            Ok (mk_ndarray (h :: (w + w')%nat :: r)
                  (zip_app (chunks (w * size_of r) h (data a))
                           (chunks (w' * size_of r) h (data b))))
          else Raise "ValueError"
      | _ => Raise "ValueError"
      end
  end.

(** [a[:, :, :k]]. *)
Definition take_axis2 (k : nat) (a : ndarray Z) : result (ndarray Z) :=
  match shape a with
  | h :: w :: c :: r =>
      Ok (mk_ndarray (h :: w :: Nat.min k c :: r)
            (List.concat (map (firstn (Nat.min k c * size_of r))
                         (chunks (c * size_of r) (h * w) (data a)))))
  | _ => Raise "IndexError"
  end.

(** [a[:, :, 0]]. *)
Definition index_axis2_0 (a : ndarray Z) : result (ndarray Z) :=
  match shape a with
  | h :: w :: S c :: r =>
      Ok (mk_ndarray (h :: w :: r)
            (List.concat (map (firstn (size_of r))
                         (chunks (S c * size_of r) (h * w) (data a)))))
  | _ => Raise "IndexError"
  end.

(** The largest number of channels of a matrix, its largest number of
    dimensions, and the largest C [int]. *)
Definition CV_CN_MAX : nat := 512.
Definition CV_MAX_DIM : nat := 32.
Definition INT_MAX : Z := 2 ^ 31 - 1.

(** How the Python binding (OpenCV 4) reads an array as an image: rows,
    columns and channels. A third axis of at most [CV_CN_MAX] entries is
    the channel axis; a 1-d array is a single column and a 0-d array a
    single pixel. Any other array is not an image ([None]); it reaches the
    library as a matrix of as many dimensions. *)
Definition as_image (sh : list nat) : option (nat * nat * nat) :=
  match sh with
  | [] => Some (1, 1, 1)%nat
  | [n] => Some (n, 1, 1)%nat
  | [h; w] => Some (h, w, 1)%nat
  | [h; w; c] => if (c <=? CV_CN_MAX)%nat then Some (h, w, c) else None
  | _ => None
  end.

(** The shape of the array the binding hands back for an image: a single
    channel has no axis of its own. *)
Definition of_image (rows cols cn : nat) : list nat :=
  if (cn =? 1)%nat then [rows; cols] else [rows; cols; cn].

(** [COLOR_BGR2GRAY] on one 8-bit pixel: the weights 0.114, 0.587 and
    0.299 in 15-bit fixed point, rounded. *)
Definition bgr2gray (pixel : list Z) : Z :=
  match pixel with
  | [b; g; r] => Z.shiftr (b * 3735 + g * 19235 + r * 9798 + 16384) 15
  | _ => 0
  end.

(** [cv2.applyColorMap(src, colormap)] on an 8-bit array. The source must
    be an image of one channel or of three (which is first turned to
    gray); every gray value is replaced by the three channels the palette
    [lut] gives it. For an empty single-channel source nothing is produced
    and the binding answers [None]; an empty three-channel source fails in
    the gray conversion. *)
Definition applyColorMap (lut : colormap -> Z -> list Z) (src : ndarray Z)
    (c : colormap) : result (option (ndarray Z)) :=
  match as_image (shape src) with
  | Some (rows, cols, cn) =>
      if (cn =? 1)%nat then
        if (rows * cols =? 0)%nat then Ok None
        else Ok (Some (mk_ndarray [rows; cols; 3%nat]
                         (flat_map (lut c) (data src))))
      else if (cn =? 3)%nat then
        if (rows * cols =? 0)%nat then Raise "cv2.error"
        else Ok (Some (mk_ndarray [rows; cols; 3%nat]
                         (flat_map (lut c)
                            (map bgr2gray (chunks 3 (rows * cols) (data src))))))
      else Raise "cv2.error"
  | None => Raise "cv2.error"
  end.

(** [cv2.merge((gray, gray, gray))]: the channels of the three planes, one
    plane after the other, for every pixel. Empty planes are refused, and
    so is a result of more than [CV_CN_MAX] channels. A plane that is not
    an image is a matrix of as many dimensions with one channel, and the
    result has one more axis. *)
Definition merge3 (gray : ndarray Z) : result (ndarray Z) :=
  if (size_of (shape gray) =? 0)%nat
     || (CV_MAX_DIM <=? List.length (shape gray))%nat
  then Raise "cv2.error"
  else
    match as_image (shape gray) with
    | Some (rows, cols, cn) =>
        if (3 * cn <=? CV_CN_MAX)%nat then
          Ok (mk_ndarray [rows; cols; (3 * cn)%nat]
                (flat_map (fun pixel => pixel ++ pixel ++ pixel)
                   (chunks cn (rows * cols) (data gray))))
        else Raise "cv2.error"
    | None =>
        Ok (mk_ndarray (shape gray ++ [3%nat])
              (flat_map (fun v => [v; v; v]) (data gray)))
    end.

(** [cv2.resize(image, (w, h))]. A target size that is empty or does not
    fit a C [int] is refused, and so is an empty image. Otherwise the
    resampling filter [resample] fills [h] rows of [w] columns with the
    source's channels, unless the library itself fails (the target cannot
    be allocated, say). A source that is not an image is handed to the
    filter as a matrix of one channel; what becomes of it is the
    library's. *)
Definition resize (resample : ndarray Z -> Z -> Z -> result (list Z))
    (image : ndarray Z) (w h : Z) : result (ndarray Z) :=
  if (w <=? 0) || (h <=? 0) || (INT_MAX <? w) || (INT_MAX <? h)
  then Raise "cv2.error"
  else
    match as_image (shape image) with
    | Some (rows, cols, cn) =>
        if (rows * cols * cn =? 0)%nat then Raise "cv2.error"
        else
          pixels <- resample image w h ;;
          Ok (mk_ndarray (of_image (Z.to_nat h) (Z.to_nat w) cn) pixels)
    | None =>
        pixels <- resample image w h ;;
        Ok (mk_ndarray [Z.to_nat h; Z.to_nat w] pixels)
    end.

(** [cv2.imwrite(name, img)] with what a call into OpenCV answered: [None]
    in the place of an image is refused. *)
Definition imwrite (p : path) (img : option (ndarray Z)) : io unit :=
  match img with
  | Some img => emit (Imwrite p img)
  | None => ([], Raised "cv2.error")
  end.

End Cv2.
Export Cv2.

(** ** depth_view.py *)

Module DepthView.

(** [depth[np.isfinite(depth)]]: the finite entries, in order. *)
Definition finite_entries (depth : depth_array) : list spec_float :=
  filter isfinite (data (px depth)).

Definition finitemax (depth : depth_array) : result spec_float :=
  nanmax (finite_entries depth).

Definition finitemin (depth : depth_array) : result spec_float :=
  nanmin (finite_entries depth).

(** The Python literal [255.0]. *)
Definition lit_255 : scalar := PyFloat (of_Z float64 255).

(** [(x - vmin) / (vmax - vmin) * 255.0] for one pixel [x] of an array of
    dtype [d]. *)
Definition scaled (d : dtype) (vmin vmax : scalar) (x : spec_float)
    : spec_float :=
  fmul d
    (fdiv d (fsub d x (in_dtype d vmin))
            (in_dtype d (scalar_sub d vmax vmin)))
    (in_dtype d lit_255).

(** [finite(depth) if v is None else v]: a supplied bound is a Python
    float, a computed one a NumPy scalar of the array's dtype. *)
Definition default_to (finite : result spec_float) (v : option spec_float)
    : result scalar :=
  match v with
  | None => fmap NpFloat finite
  | Some v => Ok (PyFloat v)
  end.

(** The command line of the viewer, as [argparse] hands it over. *)
Record viewer_args := mk_viewer_args {
  captured_dir : path;
  sec : Z;
  vmax : spec_float;
  vmin : spec_float;
  disp3d : bool;
  gray : bool;
  jet : bool;
  inferno : bool
}.

(** What the file system answers: the paths a [glob] finds, the 8-bit
    image [cv2.imread] decodes ([None] when it cannot), and the float array
    [np.load] reads or the exception it raises. *)
Record files := mk_files {
  glob : path -> string -> list path;
  imread : path -> option (ndarray Z);
  np_load : path -> result depth_array
}.

Section Externals.

(** The platform's conversion of non-representable values to 8 bits,
    OpenCV's palettes and its resampling filter (or the exception it
    ends with). *)
Variable wild : spec_float -> Z.
Variable lut : colormap -> Z -> list Z.
Variable resample : ndarray Z -> Z -> Z -> result (list Z).

(** [vmin], [vmax] default to the finite minimum and maximum; the
    arithmetic itself never raises (NumPy warns on division by zero and
    on invalid values). *)
Definition normalize_image (depth_raw : depth_array)
    (vmax vmin : option spec_float) : result (ndarray Z) :=
  vmin' <- default_to (finitemin depth_raw) vmin ;;
  vmax' <- default_to (finitemax depth_raw) vmax ;;
  Ok (amap (fun x => astype_uint8 wild (scaled (dt depth_raw) vmin' vmax' x))
           (px depth_raw)).

(** What [cv2.applyColorMap] answers is returned as it is: an image, or
    [None]. *)
Definition depth_as_colorimage (depth_raw : depth_array)
    (vmin vmax : option spec_float) (c : colormap)
    : result (option (ndarray Z)) :=
  g <- normalize_image depth_raw vmax vmin ;;
  applyColorMap lut g c.

Definition depth_as_gray (depth_raw : depth_array)
    (vmin vmax : option spec_float) : result (ndarray Z) :=
  gray <- normalize_image depth_raw vmax vmin ;;
  merge3 gray.

Definition resize_image (image : ndarray Z) (rate : spec_float)
    : result (ndarray Z) :=
  match shape image with
  | H :: W :: _ =>
      w <- scaled_dim W rate ;;
      h <- scaled_dim H rate ;;
      Cv2.resize resample image w h
  | _ => Raise "ValueError"
  end.

(** [as_matrix]: the last two dimensions, the others being 1. *)
Definition as_matrix {A} (chw_array : ndarray A) : result (ndarray A) :=
  match rev (shape chw_array) with
  | W_ :: H_ :: _ =>
      if (size_of (shape chw_array) =? H_ * W_)%nat
      then Ok (mk_ndarray [H_; W_] (data chw_array))
      else Raise "ValueError"
  | _ => Raise "ValueError"
  end.

(** The colour image of one depth frame, by the palette flags. *)
Definition colored (args : viewer_args) (depth : depth_array)
    : result (option (ndarray Z)) :=
  if gray args then fmap Some (depth_as_gray depth None None)
  else if jet args then
    depth_as_colorimage depth (Some (vmin args)) (Some (vmax args)) COLORMAP_JET
  else if inferno args then
    depth_as_colorimage depth (Some (vmin args)) (Some (vmax args)) COLORMAP_INFERNO
  else
    depth_as_colorimage depth (Some (vmin args)) (Some (vmax args)) COLORMAP_JET.

(** One pass of the 2D playback loop. [cv2.imread] answers [None] for
    a file it cannot read and an 8-bit image otherwise, so the dtype
    assertion cannot fail once the shape assertion is reached; [None] in
    the place of either image has no [shape]. *)
Definition show_pair (fs : files) (args : viewer_args) (p : path * path)
    : io unit :=
  let '(leftname, depth_name) := p in
  emit (Stdout (Text (path_str leftname ++ " " ++ path_str depth_name))) ;;;
  let image := imread fs leftname in
  depth <~ lift (np_load fs depth_name) ;;
  colored_depth <~ lift (colored args depth) ;;
  match image, colored_depth with
  | Some image, Some colored_depth =>
      assert (shape_eqb (shape image) (shape colored_depth)) ;;;
      results <~ lift (concatenate_axis1 image colored_depth) ;;
      emit (Imshow "left depth" results) ;;;
      emit (WaitKey 10) ;;;
      sleep (sec args)
  | _, _ => ([], Raised "AttributeError")
  end.

Definition view_by_colormap (fs : files) (args : viewer_args) : io unit :=
  let leftdir := path_div (captured_dir args) "left" in
  let zeddepthdir := path_div (captured_dir args) "zed-depth" in
  let left_images := sorted (glob fs leftdir "**/*.png") in
  let depth_npys := sorted (glob fs zeddepthdir "**/*.npy") in
  for_each (show_pair fs args) (combine left_images depth_npys).

(** One pass of the 3D playback loop; the point cloud is built and
    drawn by Open3D. *)
Definition show_cloud (fs : files) (args : viewer_args) (p : path * path)
    : io unit :=
  let '(leftname, depth_name) := p in
  emit (Stdout (Text (path_str leftname ++ " " ++ path_str depth_name))) ;;;
  let image := imread fs leftname in
  depth <~ lift (np_load fs depth_name) ;;
  match image with
  | None => ([], Raised "AttributeError")
  | Some image =>
      emit (AddGeometry leftname depth_name) ;;;
      emit (UpdateGeometry leftname depth_name) ;;;
      emit PollEvents ;;;
      emit UpdateRenderer ;;;
      sleep (sec args)
  end.

Definition view3d (fs : files) (args : viewer_args) : io unit :=
  let leftdir := path_div (captured_dir args) "left" in
  let zeddepthdir := path_div (captured_dir args) "zed-depth" in
  let left_images := sorted (glob fs leftdir "**/*.png") in
  let depth_npys := sorted (glob fs zeddepthdir "**/*.npy") in
  emit CreateWindow ;;;
  for_each (show_cloud fs args) (combine left_images depth_npys) ;;;
  emit DestroyWindow.

Definition depth_viewer_main (fs : files) (args : viewer_args) : io unit :=
  if disp3d args then view3d fs args else view_by_colormap fs args.

End Externals.

(** The names a [from depthview.depth_view import ...] can find: the
    module's imports and its top-level definitions. *)
Definition module_names : list string :=
  ["time"; "Path"; "cv2"; "np"; "o3d"; "tqdm";
   "finitemax"; "finitemin"; "normalize_image"; "depth_as_colorimage";
   "depth_as_gray"; "resize_image"; "as_matrix"; "view_by_colormap";
   "view3d"; "depth_viewer_main"]%string.

End DepthView.

(** ** zed_capture.py *)

Module ZedCapture.

(** The command line of the capture command, as [argparse] hands it
    over. *)
Record capture_args := mk_capture_args {
  input_svo_file : string;
  ip_address : string;
  resolution : string;
  arg_confidence_threshold : spec_float;
  outdir : path
}.

(** One successful [grab]: the buffers the SDK fills and the key that
    [cv2.waitKey] reports after the preview is shown. *)
Record frame_set := mk_frame {
  left_data : ndarray Z;
  left_is_uint8 : bool;
  right_data : ndarray Z;
  depth_view : ndarray Z;
  depth_measure : depth_array;
  key : Z
}.

Inductive grab_result :=
| GrabFailed (code : Z)
| Grabbed (f : frame_set).

(** What the camera answers: the code of [open] and the successive
    results of [grab]. *)
Record camera := mk_camera {
  open_code : InitParameters -> ERROR_CODE;
  grabs : list grab_result
}.

Definition say (s : string) : io unit := emit (Stdout (Text s)).

Definition ip_chars_ok (ip_str : string) : bool :=
  isdigit (remove_char "." (remove_char ":" ip_str)).

(** The first [if] chain of [parse_args_to_params]: the input source. *)
Definition parse_input (args : capture_args) (init_params : InitParameters)
    : io InitParameters :=
  let svo := input_svo_file args in
  let ip_str := ip_address args in
  if (0 <? String.length svo)%nat && endswith svo ".svo" then
    say ("[Sample] Using SVO File input: " ++ svo) ;;;
    ret (set_input (FromSVO svo) init_params)
  else if (0 <? String.length ip_str)%nat then
    if ip_chars_ok ip_str
       && (List.length (split_on "." ip_str) =? 4)%nat
       && (List.length (split_on ":" ip_str) =? 2)%nat then
      port <~ lift (int_of_string (nth 1 (split_on ":" ip_str) EmptyString)) ;;
      say ("[Sample] Using Stream input, IP :  " ++ ip_str) ;;;
      ret (set_input (FromStream (nth 0 (split_on ":" ip_str) EmptyString)
                                 (Some port)) init_params)
    else if ip_chars_ok ip_str
            && (List.length (split_on "." ip_str) =? 4)%nat then
      say ("[Sample] Using Stream input, IP :  " ++ ip_str) ;;;
      ret (set_input (FromStream ip_str None) init_params)
    else
      say "Unvalid IP format. Using live stream" ;;;
      ret init_params
  else ret init_params.

(** The second [if] chain: the resolution, by substring test, first
    match wins. *)
Definition parse_resolution (args : capture_args) (init_params : InitParameters)
    : io InitParameters :=
  let r := resolution args in
  if contains "HD2K" r then
    say "[Sample] Using Camera in resolution HD2K" ;;;
    ret (set_camera_resolution HD2K init_params)
  else if contains "HD1200" r then
    say "[Sample] Using Camera in resolution HD1200" ;;;
    ret (set_camera_resolution HD1200 init_params)
  else if contains "HD1080" r then
    say "[Sample] Using Camera in resolution HD1080" ;;;
    ret (set_camera_resolution HD1080 init_params)
  else if contains "HD720" r then
    say "[Sample] Using Camera in resolution HD720" ;;;
    ret (set_camera_resolution HD720 init_params)
  else if contains "SVGA" r then
    say "[Sample] Using Camera in resolution SVGA" ;;;
    ret (set_camera_resolution SVGA init_params)
  else if contains "VGA" r then
    say "[Sample] Using Camera in resolution VGA" ;;;
    ret (set_camera_resolution VGA init_params)
  else if (0 <? String.length r)%nat then
    say "[Sample] No valid resolution entered. Using default" ;;;
    ret init_params
  else
    say "[Sample] Using default resolution" ;;;
    ret init_params.

(** [parse_args_to_params] updates [init_params] in place; the model
    returns the updated record. *)
Definition parse_args_to_params (args : capture_args)
    (init_params : InitParameters) : io InitParameters :=
  p <~ parse_input args init_params ;;
  parse_resolution args p.

(** [a.shape[2]]. *)
Definition shape_2 (a : ndarray Z) : result nat :=
  match nth_error (shape a) 2 with
  | Some c => Ok c
  | None => Raise "IndexError"
  end.

(** The window title; the SDK's rendering of the depth mode is written
    as the member's name. *)
Definition title : string := "Depth init_params.depth_mode=DEPTH_MODE.ULTRA".

Definition numbered (dir : path) (stem : string) (counter : nat)
    (ext : string) : path :=
  path_div dir (stem ++ "_" ++ fmt_05d counter ++ ext).

Section Loop.

Variable lut : colormap -> Z -> list Z.

(** What the imported name [as_colorimage] is bound to. *)
Variable as_colorimage : depth_array -> result (ndarray Z).

(** [[:, :, :3].copy()] after the four-channel assertion. *)
Definition bgr_of (buf : ndarray Z) : io (ndarray Z) :=
  c <~ lift (shape_2 buf) ;;
  assert (c =? 4)%nat ;;;
  lift (take_axis2 3 buf).

(** One pass of [while True] on a frame that was grabbed; the result
    tells whether the quit key was seen. *)
Definition capture_frame (dirs : path * path * path) (counter : nat)
    (f : frame_set) : io bool :=
  let '(leftdir, rightdir, zeddepthdir) := dirs in
  cv_left_image <~ bgr_of (left_data f) ;;
  cv_right_image <~ bgr_of (right_data f) ;;
  cv_depth_img <~ lift (index_axis2_0 (depth_view f)) ;;
  let depth_data := depth_measure f in
  let leftname := numbered leftdir "left" counter ".png" in
  let rightname := numbered rightdir "right" counter ".png" in
  let depthname := numbered zeddepthdir "zeddepth" counter ".png" in
  let depthnpyname := numbered zeddepthdir "zeddepth" counter ".npy" in
  emit (Imwrite leftname cv_left_image) ;;;
  emit (Imwrite rightname cv_right_image) ;;;
  depth_png <~ lift (applyColorMap lut cv_depth_img COLORMAP_JET) ;;
  imwrite depthname depth_png ;;;
  emit (NpSave depthnpyname depth_data) ;;;
  say ("saved " ++ path_str leftname ++ " " ++ path_str rightname) ;;;
  c <~ lift (shape_2 cv_left_image) ;;
  assert (c =? 3)%nat ;;;
  assert (left_is_uint8 f) ;;;
  let zed_depth := depth_measure f in
  colored_depth_image <~ lift (as_colorimage zed_depth) ;;
  results <~ lift (concatenate_axis1 cv_left_image colored_depth_image) ;;
  emit (Imshow title results) ;;;
  emit (WaitKey 1) ;;;
  ret (key f =? 113).

(** [while True]: a failed grab is skipped, the quit key calls
    [exit()]; when the camera's answers run out the loop is still
    waiting. It has no [break]. *)
Fixpoint capture_loop (rp : RuntimeParameters) (dirs : path * path * path)
    (script : list grab_result) (counter : nat) : io unit :=
  match script with
  | [] => ([], Waiting)
  | GrabFailed _ :: rest =>
      emit (Grab rp) ;;;
      capture_loop rp dirs rest counter
  | Grabbed f :: rest =>
      emit (Grab rp) ;;;
      quit <~ capture_frame dirs counter f ;;
      if (quit : bool) then exit 0
      else capture_loop rp dirs rest (S counter)
  end.

Definition capture_main (cam : camera) (args : capture_args) : io unit :=
  let leftdir := path_div (outdir args) "left" in
  let rightdir := path_div (outdir args) "right" in
  let zeddepthdir := path_div (outdir args) "zed-depth" in
  emit (Mkdir leftdir) ;;;
  emit (Mkdir rightdir) ;;;
  emit (Mkdir zeddepthdir) ;;;
  init_params <~ parse_args_to_params args fresh_init ;;
  let init_params := set_depth_mode ULTRA init_params in
  let init_params := set_camera_resolution HD2K init_params in
  emit (CameraOpen init_params) ;;;
  let err := open_code cam init_params in
  if negb (is_success err) then
    emit (Stdout (ErrorRepr err)) ;;;
    exit 1
  else
    let runtime_parameters :=
      mk_runtime (Some WORLD) (arg_confidence_threshold args) in
    emit (Stdout (ThresholdRepr (confidence_threshold runtime_parameters))) ;;;
    emit (NamedWindow title) ;;;
    emit (SaveJson (path_div (outdir args) "camera_param.json")) ;;;
    capture_loop runtime_parameters (leftdir, rightdir, zeddepthdir)
                 (grabs cam) 0 ;;;
    emit CameraClose.

Definition main (cam : camera) (args : capture_args) : io unit :=
  if (0 <? String.length (input_svo_file args))%nat
     && (0 <? String.length (ip_address args))%nat then
    say "Specify only input_svo_file or ip_address, or none to use wired camera, not both. Exit program" ;;;
    exit 0
  else capture_main cam args.

End Loop.

(** [from depthview.depth_view import name]. *)
Definition import_from (names : list string) (name : string) : result unit :=
  if existsb (String.eqb name) names then Ok tt else Raise "ImportError".

(** Loading the module runs its imports; the one that reaches into this
    repository is [from depthview.depth_view import as_colorimage]. *)
Definition load_module : result unit :=
  import_from DepthView.module_names "as_colorimage".

(** The capture command: the module is loaded, then [main] runs. *)
Definition capture_command (lut : colormap -> Z -> list Z)
    (as_colorimage : depth_array -> result (ndarray Z))
    (cam : camera) (args : capture_args) : io unit :=
  lift load_module ;;;
  main lut as_colorimage cam args.

End ZedCapture.

(** ** Concrete frames and the specification's wording of some properties *)

Module Scenarios.

Import DepthView.

(** A 1x2 frame that holds no measurement at all. *)
Definition nan_frame : depth_array :=
  mk_depth float32 (mk_ndarray [1; 2]%nat [S754_nan; S754_nan]).

(** The largest binary64 number. *)
Definition huge : spec_float := S754_finite false (2 ^ 53 - 1) 971.

(** A binary64 frame whose range does not fit the format. *)
Definition overflow_frame : depth_array :=
  mk_depth float64 (mk_ndarray [1; 2]%nat [SFopp huge; huge]).

(** A binary32 frame: 1, 2, 4, one NaN and one infinity. *)
Definition ramp_frame : depth_array :=
  mk_depth float32
    (mk_ndarray [1; 5]%nat
       [of_Z float32 1; of_Z float32 2; of_Z float32 4; S754_nan;
        S754_infinity false]).

(** A binary32 frame whose measurements are all 2. *)
Definition flat_frame : depth_array :=
  mk_depth float32
    (mk_ndarray [2; 2]%nat
       [of_Z float32 2; S754_nan; of_Z float32 2; S754_infinity false]).

(** A palette that repeats the grey level. *)
Definition grey_lut (c : colormap) (v : Z) : list Z := [v; v; v].

(** One half and one third, as binary64 literals [0.5] and [0.33]. *)
Definition half : spec_float := S754_finite false (2 ^ 52) (-53).
Definition lit_0_33 : spec_float := S754_finite false 5944751508129055 (-54).

(** A resampling filter that fills the target with zeros. *)
Definition zero_fill (image : ndarray Z) (w h : Z) : result (list Z) :=
  Ok (repeat 0 (Z.to_nat (w * h))).

(** A 100x200 colour image and a single pixel. *)
Definition image_100x200 : ndarray Z :=
  mk_ndarray [100; 200; 3]%nat (repeat 7 (100 * 200 * 3)).

(** "Maps every pixel holding the finite minimum to 0 and every pixel
    holding the finite maximum to 255, provided the two are distinct",
    for one frame. *)
Definition extremes_to_0_255 (wild : spec_float -> Z) (a : depth_array) : Prop :=
  forall vmin vmax,
    finitemin a = Ok vmin -> finitemax a = Ok vmax ->
    SFeqb vmin vmax = false ->
    exists out,
      normalize_image wild a None None = Ok out /\
      forall i x, nth_error (data (px a)) i = Some x ->
        (SFeqb x vmin = true -> nth_error (data out) i = Some 0) /\
        (SFeqb x vmax = true -> nth_error (data out) i = Some 255).

(** The number of images shown by a run. *)
Definition is_imshow (e : event) : bool :=
  match e with Imshow _ _ => true | _ => false end.

Definition passes (t : list event) : nat :=
  List.length (filter is_imshow t).

(** A playback session: what [glob] finds under [session/left],
    [session/right] and [session/zed-depth]; every image is a 1x2 colour
    image and every array is [ramp]. *)
Definition session_dir : path := ["session"%string].

Definition listing (l r d : list path) (p : path) (pattern : string)
    : list path :=
  if String.eqb (path_str p) "session/left" then l
  else if String.eqb (path_str p) "session/right" then r
  else if String.eqb (path_str p) "session/zed-depth" then d
  else [].

Definition small_image : ndarray Z :=
  mk_ndarray [1; 2; 3]%nat [9; 9; 9; 9; 9; 9].

Definition small_depth : depth_array :=
  mk_depth float32 (mk_ndarray [1; 2]%nat [of_Z float32 1000; of_Z float32 4000]).

Definition session (l r d : list path) : files :=
  mk_files (listing l r d) (fun _ => Some small_image) (fun _ => Ok small_depth).

Definition in_dir (dir name : string) : path := ["session"%string; dir; name].

Definition three_left : list path :=
  [in_dir "left" "left_00002.png"; in_dir "left" "left_00000.png";
   in_dir "left" "left_00001.png"].
Definition three_right : list path :=
  [in_dir "right" "right_00000.png"; in_dir "right" "right_00001.png";
   in_dir "right" "right_00002.png"].
Definition two_depth : list path :=
  [in_dir "zed-depth" "zeddepth_00001.npy"; in_dir "zed-depth" "zeddepth_00000.npy"].

(** The viewer's defaults: one second, 0..5000 mm, no palette flag. *)
Definition default_viewer_args : viewer_args :=
  mk_viewer_args session_dir 1 (of_Z float64 5000) (of_Z float64 0)
    false false false false.

(** "Processes exactly as many aligned items as the shortest collection",
    for one session. *)
Definition stops_at_shortest (wild : spec_float -> Z)
    (lut : colormap -> Z -> list Z) (fs : files) (args : viewer_args) : Prop :=
  passes (trace (view_by_colormap wild lut fs args)) =
  Nat.min (List.length (glob fs (path_div (captured_dir args) "left") "**/*.png"))
    (Nat.min
       (List.length (glob fs (path_div (captured_dir args) "right") "**/*.png"))
       (List.length (glob fs (path_div (captured_dir args) "zed-depth") "**/*.npy"))).

(** A session whose depth file cannot be loaded. *)
Definition broken_session : files :=
  mk_files (listing [in_dir "left" "left_00000.png"] []
                    [in_dir "zed-depth" "zeddepth_00000.npy"])
           (fun _ => Some small_image) (fun _ => Raise "OSError").

(** The capture command asked for 720p, with the other flags at their
    defaults. *)
Definition hd720_args : ZedCapture.capture_args :=
  ZedCapture.mk_capture_args EmptyString EmptyString "HD720"
    (of_Z float64 100) ["outdir"%string].

(** The capture command with every flag at its default. *)
Definition default_capture_args : ZedCapture.capture_args :=
  ZedCapture.mk_capture_args EmptyString EmptyString EmptyString
    (of_Z float64 100) ["outdir"%string].

(** A four-channel 1x2 buffer, as the SDK fills it. *)
Definition bgra_1x2 : ndarray Z :=
  mk_ndarray [1; 2; 4]%nat [10; 20; 30; 255; 40; 50; 60; 255].

(** One grabbed frame after which the user presses [q]. *)
Definition quit_frame : ZedCapture.frame_set :=
  ZedCapture.mk_frame bgra_1x2 true bgra_1x2 bgra_1x2 small_depth 113.

(** A camera that opens, fails one grab, then delivers [quit_frame]. *)
Definition quit_camera : ZedCapture.camera :=
  ZedCapture.mk_camera (fun _ => SUCCESS)
    [ZedCapture.GrabFailed 1; ZedCapture.Grabbed quit_frame].

(** The colour function of [depth_view], called with a depth array only;
    a [None] in the place of the image is refused by the [np.concatenate]
    the result is handed to. *)
Definition colorize (depth : depth_array) : result (ndarray Z) :=
  img <- depth_as_colorimage wild_x86_64 grey_lut depth None None
           COLORMAP_INFERNO ;;
  match img with
  | Some img => Ok img
  | None => Raise "ValueError"
  end.

End Scenarios.

(** ** Observations on values and traces, used to state further properties *)

Module Observations.

Import DepthView ZedCapture.

(** The place of a finite float in the order of [SFcompare]: its sign
    class first, then exponent and mantissa (mirrored for negatives). *)
Definition rank (x : spec_float) : Z * Z * Z :=
  match x with
  | S754_finite false m e => (1, e, Zpos m)
  | S754_finite true m e => (-1, - e, - Zpos m)
  | _ => (0, 0, 0)
  end.

Definition rank_le (a b : Z * Z * Z) : Prop :=
  let '(a1, a2, a3) := a in
  let '(b1, b2, b3) := b in
  a1 < b1 \/ (a1 = b1 /\ (a2 < b2 \/ (a2 = b2 /\ a3 <= b3))).

(** The sign a float carries, NaN carrying none. *)
Definition has_sign (s : bool) (x : spec_float) : Prop :=
  match x with
  | S754_zero s' | S754_infinity s' | S754_finite s' _ _ => s' = s
  | S754_nan => True
  end.

(** The number of point clouds a run has handed to the visualiser. *)
Definition is_add_geometry (e : event) : bool :=
  match e with AddGeometry _ _ => true | _ => false end.

Definition geometries (t : list event) : nat :=
  List.length (filter is_add_geometry t).

(** A session of two frames whose second depth file cannot be loaded. *)
Definition second_unreadable : files :=
  mk_files
    (Scenarios.listing
       [Scenarios.in_dir "left" "left_00000.png";
        Scenarios.in_dir "left" "left_00001.png"] []
       [Scenarios.in_dir "zed-depth" "zeddepth_00000.npy";
        Scenarios.in_dir "zed-depth" "zeddepth_00001.npy"])
    (fun _ => Some Scenarios.small_image)
    (fun p => if String.eqb (path_str p) "session/zed-depth/zeddepth_00001.npy"
              then Raise "OSError" else Ok Scenarios.small_depth).

(** A run that returns or raises: it neither exits the process nor is
    left waiting. *)
Definition returns_or_raises {A} (m : io A) : Prop :=
  match outcome m with
  | Done _ | Raised _ => True
  | Exited _ | Waiting => False
  end.

(** The files a run has written, in order. *)
Definition written_path (e : event) : list path :=
  match e with
  | Imwrite p _ => [p]
  | NpSave p _ => [p]
  | _ => []
  end.

Definition written (t : list event) : list path := flat_map written_path t.

(** The four files of the frame saved under index [i]. *)
Definition frame_files (outdir : path) (i : nat) : list path :=
  [numbered (path_div outdir "left") "left" i ".png";
   numbered (path_div outdir "right") "right" i ".png";
   numbered (path_div outdir "zed-depth") "zeddepth" i ".png";
   numbered (path_div outdir "zed-depth") "zeddepth" i ".npy"].

(** The number of successful grabs in what the camera answers. *)
Definition grabbed (script : list grab_result) : nat :=
  List.length (filter (fun g => match g with Grabbed _ => true | _ => false end)
                      script).

(** Buffers as the SDK delivers them: four 8-bit channels for the left and
    right views, a depth view of at least one row, one column and one
    channel. *)
Definition sdk_frame (f : frame_set) : Prop :=
  nth_error (shape (left_data f)) 2 = Some 4%nat /\
  nth_error (shape (right_data f)) 2 = Some 4%nat /\
  (exists h w c, shape (depth_view f) = [S h; S w; S c]) /\
  left_is_uint8 f = true.

(** The frame is saved and previewed without an exception, and the key
    pressed after it is not [q]. *)
Definition frame_passes (lut : colormap -> Z -> list Z)
    (col : depth_array -> result (ndarray Z)) (outdir : path)
    (g : grab_result) : Prop :=
  match g with
  | GrabFailed _ => True
  | Grabbed f =>
      outcome (capture_frame lut col
                 (path_div outdir "left", path_div outdir "right",
                  path_div outdir "zed-depth") 0 f) = Done false
  end.

(** A grabbed frame whose depth measure holds no finite value. *)
Definition blind_frame : frame_set :=
  mk_frame Scenarios.bgra_1x2 true Scenarios.bgra_1x2 Scenarios.bgra_1x2
    (mk_depth float32 (mk_ndarray [1; 2]%nat [S754_nan; S754_nan])) (-1).

(** A frame after which no key is pressed. *)
Definition plain_frame : frame_set :=
  mk_frame Scenarios.bgra_1x2 true Scenarios.bgra_1x2 Scenarios.bgra_1x2
    Scenarios.small_depth (-1).

(** The decimal number a string of digits spells. *)
Definition read_index (s : string) : option nat :=
  option_map Nat.of_uint (NilEmpty.uint_of_string s).


End Observations.

(** * Properties *)

(** ** Floating-point facts used below *)

Section FloatFacts.

Lemma SFeqb_finite_inv s m e s' m' e' :
  SFeqb (S754_finite s m e) (S754_finite s' m' e') = true ->
  s = s' /\ m = m' /\ e = e'.
Proof.
  unfold SFeqb, SFcompare.
  destruct s, s'; try discriminate;
    destruct (Z.compare_spec e e') as [He | He | He]; try discriminate;
    destruct (Pos.compare_cont Eq m m') eqn:Hm; try discriminate;
    intros _; apply Pos.compare_eq in Hm; subst; auto.
Qed.

(** Two floats that compare equal are two zeros, two infinities of one
    sign, or the same finite number. *)
Lemma SFeqb_true_cases x y :
  SFeqb x y = true ->
  (exists s s', x = S754_zero s /\ y = S754_zero s') \/
  (exists s, x = S754_infinity s /\ y = S754_infinity s) \/
  (exists s m e, x = S754_finite s m e /\ y = S754_finite s m e).
Proof.
  destruct x as [s | s | | s m e], y as [s' | s' | | s' m' e'];
    try (unfold SFeqb; simpl; discriminate);
    try (unfold SFeqb; simpl; destruct s; discriminate);
    try (unfold SFeqb; simpl; destruct s'; discriminate).
  - intros _. left. eauto.
  - intros H. right. left. exists s.
    unfold SFeqb in H; simpl in H. destruct s, s'; try discriminate; auto.
  - intros H. apply SFeqb_finite_inv in H as (-> & -> & ->).
    right. right. eauto.
Qed.

Lemma shl_align_same m e : shl_align m e e = (m, e).
Proof. unfold shl_align. rewrite Z.sub_diag. reflexivity. Qed.

Lemma fsub_finite_self d s m e :
  fsub d (S754_finite s m e) (S754_finite s m e) = S754_zero false.
Proof.
  unfold fsub, SFsub. rewrite Z.min_id, shl_align_same. simpl fst.
  rewrite Z.sub_diag. reflexivity.
Qed.

(** The difference of two finite floats that compare equal is a zero. *)
Lemma fsub_eq_zero d x y :
  isfinite x = true -> SFeqb x y = true -> is_zero (fsub d x y) = true.
Proof.
  intros Hx H.
  destruct (SFeqb_true_cases _ _ H)
    as [(s & s' & -> & ->) | [(s & -> & ->) | (s & m & e & -> & ->)]].
  - destruct s, s'; reflexivity.
  - discriminate.
  - rewrite fsub_finite_self. reflexivity.
Qed.

(** A finite, non-zero difference has finite operands. *)
Lemma fsub_finite_nonzero_args d a b :
  finite_nonzero (fsub d a b) = true -> isfinite a = true /\ isfinite b = true.
Proof.
  destruct a as [sa | sa | | sa ma ea], b as [sb | sb | | sb mb eb];
    simpl; auto; try discriminate;
    destruct sa; try destruct sb; simpl; auto; discriminate.
Qed.

Lemma div_eucl_shiftl_self (m : positive) (k : Z) :
  0 <= k -> Z.div_eucl (Z.shiftl (Zpos m) k) (Zpos m) = (2 ^ k, 0).
Proof.
  intros Hk.
  pose proof (Z.div_eucl_eq (Z.shiftl (Zpos m) k) (Zpos m)) as E.
  pose proof (Z.mod_pos_bound (Z.shiftl (Zpos m) k) (Zpos m)) as B.
  unfold Z.modulo in B.
  destruct (Z.div_eucl (Z.shiftl (Z.pos m) k) (Z.pos m)) as [q r].
  rewrite Z.shiftl_mul_pow2 in E by assumption.
  specialize (E ltac:(lia)). specialize (B ltac:(lia)).
  assert (r = 0).
  { assert (r = Zpos m * (2 ^ k - q)) by lia.
    destruct (Z.eq_dec (2 ^ k - q) 0); [lia | nia]. }
  subst r. f_equal. nia.
Qed.

(** A finite, non-zero float divided by itself is exactly one. *)
Lemma fdiv_self d s m e :
  fdiv d (S754_finite s m e) (S754_finite s m e) = of_Z d 1.
Proof.
  unfold fdiv, SFdiv, SFdiv_core_binary.
  rewrite !Z.sub_diag.
  destruct d; cbn [prec emax].
  - change (IntDef.Z.min (fexp 24 128 0) 0) with (-24).
    change (0 - -24) with 24. cbv iota.
    change (IntDef.Z.div_eucl (IntDef.Z.shiftl (Z.pos m) 24) (Z.pos m))
      with (Z.div_eucl (Z.shiftl (Z.pos m) 24) (Z.pos m)).
    rewrite div_eucl_shiftl_self by lia.
    unfold new_location. destruct (Z.even (Z.pos m)), s; reflexivity.
  - change (IntDef.Z.min (fexp 53 1024 0) 0) with (-53).
    change (0 - -53) with 53. cbv iota.
    change (IntDef.Z.div_eucl (IntDef.Z.shiftl (Z.pos m) 53) (Z.pos m))
      with (Z.div_eucl (Z.shiftl (Z.pos m) 53) (Z.pos m)).
    rewrite div_eucl_shiftl_self by lia.
    unfold new_location. destruct (Z.even (Z.pos m)), s; reflexivity.
Qed.

Lemma fmul_one_255 d : fmul d (of_Z d 1) (in_dtype d DepthView.lit_255) = of_Z d 255.
Proof. destruct d; reflexivity. Qed.

Lemma astype_255 wild d : astype_uint8 wild (of_Z d 255) = 255.
Proof. destruct d; reflexivity. Qed.

Lemma fmul_zero_255 d s :
  is_zero (fmul d (S754_zero s) (in_dtype d DepthView.lit_255)) = true.
Proof. destruct d, s; reflexivity. Qed.

Lemma astype_zero wild x : is_zero x = true -> astype_uint8 wild x = 0.
Proof. destruct x; try discriminate. reflexivity. Qed.

Lemma astype_range wild x : 0 <= astype_uint8 wild x <= 255.
Proof.
  unfold astype_uint8.
  pose proof (Z.mod_pos_bound (wild x) 256 ltac:(lia)).
  destruct (trunc x) as [n |]; [| lia].
  destruct ((0 <=? n) && (n <=? 255)) eqn:E; [| lia].
  apply andb_true_iff in E as [E1 E2]. lia.
Qed.

(** In range, the conversion is the truncation toward zero. *)
Lemma astype_trunc wild x n :
  trunc x = Some n -> 0 <= n <= 255 -> astype_uint8 wild x = n.
Proof.
  intros Hn Hr. unfold astype_uint8. rewrite Hn.
  replace ((0 <=? n) && (n <=? 255)) with true; [reflexivity |].
  symmetry. apply andb_true_iff. lia.
Qed.

End FloatFacts.

(** ** Rounding never turns a non-zero difference into a zero

    For any format with a positive precision. *)

Section Rounding.

Variables prec emax : Z.
Hypothesis prec_pos : 0 < prec.

Local Abbreviation emin := (SpecFloat.emin prec emax).
Local Abbreviation fexp := (SpecFloat.fexp prec emax).

Lemma digits2_size m : digits2_pos m = Pos.size m.
Proof. induction m; simpl; congruence. Qed.

Lemma digits2_bounds m :
  2 ^ (Zpos (digits2_pos m) - 1) <= Zpos m < 2 ^ Zpos (digits2_pos m).
Proof.
  rewrite digits2_size.
  pose proof (Pos.size_gt m) as Hgt. pose proof (Pos.size_le m) as Hle.
  apply Pos2Z.pos_lt_pos in Hgt. apply Pos2Z.pos_le_pos in Hle.
  rewrite Pos2Z.inj_pow in Hgt, Hle.
  change (Z.pos m~0) with (2 * Z.pos m) in Hle.
  replace (Z.pos (Pos.size m)) with (1 + (Z.pos (Pos.size m) - 1)) in Hle at 1 by lia.
  rewrite Z.pow_add_r in Hle by lia. change (2 ^ 1) with 2 in Hle.
  split; [lia | exact Hgt].
Qed.

Lemma fexp_ge_emin k : emin <= fexp k.
Proof. unfold SpecFloat.fexp. lia. Qed.

(** [shr_1] halves the mantissa. *)
Lemma shr_1_m mrs : 0 <= shr_m mrs -> shr_m (shr_1 mrs) = shr_m mrs / 2.
Proof.
  destruct mrs as [m r s]. simpl. intros Hm.
  destruct m as [| [p | p |] | p]; try lia; simpl shr_m.
  - reflexivity.
  - rewrite Pos2Z.inj_xI. apply Z.div_unique with 1; lia.
  - rewrite Pos2Z.inj_xO. apply Z.div_unique with 0; lia.
  - reflexivity.
Qed.

Lemma iter_pos_inv {A} (f : A -> A) (Q : Z -> A -> Prop) :
  (forall k x, 0 <= k -> Q k x -> Q (k + 1) (f x)) ->
  forall n k x, 0 <= k -> Q k x -> Q (k + Zpos n) (iter_pos f n x).
Proof.
  intros Hf. induction n as [n IH | n IH |]; intros k x Hk Hx; simpl.
  - rewrite Pos2Z.inj_xI.
    replace (k + (2 * Z.pos n + 1)) with ((k + 1 + Zpos n) + Zpos n) by lia.
    apply IH; [lia |]. apply IH; [lia |]. apply Hf; assumption.
  - rewrite Pos2Z.inj_xO.
    replace (k + 2 * Z.pos n) with ((k + Zpos n) + Zpos n) by lia.
    apply IH; [lia |]. apply IH; assumption.
  - apply Hf; assumption.
Qed.

Lemma shr_m_iter m r s n :
  0 <= m ->
  shr_m (iter_pos shr_1 n (Build_shr_record m r s)) = m / 2 ^ Zpos n.
Proof.
  intros Hm.
  pose (Q := fun k x => shr_m x = m / 2 ^ k).
  change (Q (Zpos n) (iter_pos shr_1 n (Build_shr_record m r s))).
  replace (Zpos n) with (0 + Zpos n) at 1 by lia.
  apply iter_pos_inv; [| lia |].
  - intros k x Hk Hx. unfold Q in *.
    rewrite shr_1_m, Hx.
    + rewrite Z.pow_add_r, Z.div_div by lia. reflexivity.
    + rewrite Hx. apply Z.div_pos; [lia | apply Z.pow_pos_nonneg; lia].
  - unfold Q. simpl. rewrite Z.div_1_r. reflexivity.
Qed.

(** [shr_fexp] keeps a positive mantissa positive and the exponent at or
    above [emin]. *)
Lemma shr_fexp_pos m e l :
  emin <= e ->
  let '(mrs, e') := shr_fexp prec emax (Zpos m) e l in
  0 < shr_m mrs /\ emin <= e'.
Proof.
  intros He. unfold shr_fexp, shr.
  simpl Zdigits2.
  pose proof (digits2_bounds m) as [Hlo Hhi].
  set (d := Zpos (digits2_pos m)) in *.
  destruct (fexp (d + e) - e) as [| n | n] eqn:En.
  - split; [| exact He]. destruct l as [| []]; simpl; lia.
  - assert (Hn : Zpos n <= d - 1).
    { unfold SpecFloat.fexp in En. lia. }
    split.
    + destruct l as [| []]; simpl shr_record_of_loc; rewrite shr_m_iter by lia;
        (apply Z.div_str_pos; split; [apply Z.pow_pos_nonneg; lia |];
         eapply Z.le_trans; [| exact Hlo]; apply Z.pow_le_mono_r; lia).
    + lia.
  - split; [| exact He]. destruct l as [| []]; simpl; lia.
Qed.

Lemma round_nearest_even_pos m l : 0 < m -> 0 < round_nearest_even m l.
Proof.
  intros H. unfold round_nearest_even.
  destruct l as [| []]; try lia. destruct (Z.even m); lia.
Qed.

(** Rounding a positive mantissa at an exponent at or above [emin] does
    not give a zero. *)
Lemma binary_round_aux_nonzero s m e l :
  emin <= e -> is_zero (binary_round_aux prec emax s (Zpos m) e l) = false.
Proof.
  intros He. unfold binary_round_aux.
  pose proof (shr_fexp_pos m e l He) as H1.
  destruct (shr_fexp prec emax (Z.pos m) e l) as [mrs' e'].
  destruct H1 as [Hm' He'].
  pose proof (round_nearest_even_pos (shr_m mrs') (loc_of_shr_record mrs') Hm') as Hr.
  destruct (round_nearest_even (shr_m mrs') (loc_of_shr_record mrs')) as [| m1 | m1];
    try lia.
  pose proof (shr_fexp_pos m1 e' loc_Exact He') as H2.
  destruct (shr_fexp prec emax (Z.pos m1) e' loc_Exact) as [mrs'' e''].
  destruct H2 as [Hm'' _].
  destruct (shr_m mrs'') as [| m2 | m2]; try lia.
  destruct (e'' <=? emax - prec); reflexivity.
Qed.

Lemma binary_round_nonzero s m e :
  emin <= e -> is_zero (binary_round prec emax s m e) = false.
Proof.
  intros He. unfold binary_round.
  destruct (shl_align m e _) as [mz ez] eqn:E.
  apply binary_round_aux_nonzero.
  unfold shl_align in E.
  destruct (fexp _ - e) eqn:En; injection E as <- <-;
    first [exact He | apply fexp_ge_emin].
Qed.

Lemma binary_normalize_nonzero m e sz :
  m <> 0 -> emin <= e -> is_zero (binary_normalize prec emax m e sz) = false.
Proof.
  intros Hm He. destruct m as [| p | p]; [congruence | |];
    apply binary_round_nonzero; assumption.
Qed.

End Rounding.

Section Subtraction.

Variables prec emax : Z.
Hypothesis prec_pos : 0 < prec.

Local Abbreviation emin := (SpecFloat.emin prec emax).
Local Abbreviation fexp := (SpecFloat.fexp prec emax).

Lemma canonical_facts m e :
  canonical_mantissa prec emax m e = true ->
  emin <= e /\ Zpos (digits2_pos m) <= prec /\
  (emin < e -> Zpos (digits2_pos m) = prec).
Proof.
  unfold canonical_mantissa. intros H. apply Z.eqb_eq in H.
  unfold SpecFloat.fexp in H. lia.
Qed.

Lemma shl_align_value m e e' :
  e' <= e ->
  Zpos (fst (shl_align m e e')) = Zpos m * 2 ^ (e - e').
Proof.
  intros H. unfold shl_align.
  destruct (e' - e) as [| d | d] eqn:E; simpl fst; try lia.
  - replace (e - e') with 0 by lia. lia.
  - replace (e - e') with (Zpos d) by lia.
    clear. induction d using Pos.peano_ind.
    + simpl. lia.
    + rewrite Pos.iter_succ, Pos2Z.inj_succ, Z.pow_succ_r by lia.
      rewrite Pos2Z.inj_xO, IHd. lia.
Qed.

Lemma aligned_equal_inv mx ex my ey :
  canonical_mantissa prec emax mx ex = true ->
  canonical_mantissa prec emax my ey = true ->
  ex <= ey ->
  Zpos mx = Zpos my * 2 ^ (ey - ex) -> ex = ey /\ mx = my.
Proof.
  intros Hx Hy Hle E.
  apply canonical_facts in Hx as (Hxe & Hxd & _).
  apply canonical_facts in Hy as (Hye & Hyd & Hyn).
  destruct (Z.eq_dec ex ey) as [-> | Hne].
  - rewrite Z.sub_diag, Z.pow_0_r, Z.mul_1_r in E. split; [reflexivity |].
    congruence.
  - exfalso. specialize (Hyn ltac:(lia)).
    pose proof (digits2_bounds mx) as [_ Hxhi].
    pose proof (digits2_bounds my) as [Hylo _].
    rewrite Hyn in Hylo.
    assert (H2 : 2 ^ 1 <= 2 ^ (ey - ex)) by (apply Z.pow_le_mono_r; lia).
    assert (Hp : 2 ^ Z.pos (digits2_pos mx) <= 2 ^ prec)
      by (apply Z.pow_le_mono_r; lia).
    assert (Hs : 2 ^ prec = 2 * 2 ^ (prec - 1)).
    { rewrite <- Z.pow_succ_r by lia. f_equal. lia. }
    change (2 ^ 1) with 2 in H2.
    assert (0 < 2 ^ (prec - 1)) by (apply Z.pow_pos_nonneg; lia).
    nia.
Qed.

(** The difference of two distinct numbers of the format is not a zero. *)
Lemma SFsub_distinct_nonzero sx mx ex sy my ey :
  canonical_mantissa prec emax mx ex = true ->
  canonical_mantissa prec emax my ey = true ->
  SFeqb (S754_finite sx mx ex) (S754_finite sy my ey) = false ->
  is_zero (SFsub prec emax (S754_finite sx mx ex) (S754_finite sy my ey)) = false.
Proof.
  intros Hx Hy Hne.
  assert (Hd : ~ (sx = sy /\ mx = my /\ ex = ey)).
  { intros (-> & -> & ->). unfold SFeqb, SFcompare in Hne.
    rewrite Z.compare_refl, Pos.compare_cont_refl in Hne.
    destruct sy; discriminate. }
  pose proof (canonical_facts _ _ Hx) as (Hxe & _ & _).
  pose proof (canonical_facts _ _ Hy) as (Hye & _ & _).
  unfold SFsub. apply binary_normalize_nonzero; [assumption | | lia].
  rewrite !shl_align_value by lia.
  assert (Px : 0 < 2 ^ (ex - Z.min ex ey)) by (apply Z.pow_pos_nonneg; lia).
  assert (Py : 0 < 2 ^ (ey - Z.min ex ey)) by (apply Z.pow_pos_nonneg; lia).
  intros M. apply Hd.
  assert (E : Zpos mx * 2 ^ (ex - Z.min ex ey) = Zpos my * 2 ^ (ey - Z.min ex ey)
              /\ sx = sy).
  { assert (0 < Zpos mx * 2 ^ (ex - Z.min ex ey)) by (apply Z.mul_pos_pos; lia).
    assert (0 < Zpos my * 2 ^ (ey - Z.min ex ey)) by (apply Z.mul_pos_pos; lia).
    destruct sx, sy; cbn [cond_Zopp] in M; split;
      first [reflexivity | lia]. }
  destruct E as [E ->]. split; [reflexivity |].
  destruct (Z.le_ge_cases ex ey) as [Hle | Hge].
  - rewrite Z.min_l in E by lia.
    rewrite Z.sub_diag, Z.pow_0_r, Z.mul_1_r in E.
    destruct (aligned_equal_inv mx ex my ey Hx Hy Hle E); auto.
  - rewrite Z.min_r in E by lia.
    rewrite Z.sub_diag, Z.pow_0_r, Z.mul_1_r in E. symmetry in E.
    destruct (aligned_equal_inv my ey mx ex Hy Hx Hge E); auto.
Qed.

End Subtraction.

Section DtypeFacts.

Lemma SFeqb_refl_finite x : isfinite x = true -> SFeqb x x = true.
Proof.
  destruct x as [s | s | | s m e]; try discriminate; intros _.
  - reflexivity.
  - unfold SFeqb, SFcompare.
    rewrite Z.compare_refl, Pos.compare_cont_refl. destruct s; reflexivity.
Qed.

Lemma SFeqb_sym_finite x y :
  isfinite x = true -> SFeqb x y = true -> SFeqb y x = true.
Proof.
  intros Hx H.
  destruct (SFeqb_true_cases _ _ H)
    as [(s & s' & -> & ->) | [(s & -> & ->) | (s & m & e & -> & ->)]].
  - reflexivity.
  - discriminate.
  - exact H.
Qed.

Lemma prec_positive d : 0 < prec d.
Proof. destruct d; reflexivity. Qed.

(** Two finite numbers of dtype [d] that differ have a difference that is
    not a zero. *)
Lemma fsub_distinct_nonzero d x y :
  valid d x = true -> valid d y = true ->
  isfinite x = true -> isfinite y = true ->
  SFeqb x y = false ->
  is_zero (fsub d x y) = false.
Proof.
  unfold valid, valid_binary, bounded.
  destruct x as [sx | sx | | sx mx ex], y as [sy | sy | | sy my ey];
    try discriminate; intros Vx Vy _ _ Hne.
  - destruct sx, sy; reflexivity.
  - reflexivity.
  - apply andb_true_iff in Vx as [Vx _]. apply andb_true_iff in Vy as [Vy _].
    apply SFsub_distinct_nonzero; auto using prec_positive.
Qed.

End DtypeFacts.

(** ** Normalisation: [finitemin], [finitemax], [normalize_image] *)

Section Normalisation.

Import DepthView.

Lemma reduce_member f l v :
  (forall a b, f a b = a \/ f a b = b) ->
  reduce f l = Ok v -> In v l.
Proof.
  intros Hf. destruct l as [| x t]; [discriminate |].
  simpl. intros [= <-]. revert x.
  induction t as [| y t IH]; intros x; simpl; [auto |].
  destruct (Hf x y) as [-> | ->].
  - destruct (IH x) as [<- | H]; auto.
  - destruct (IH y) as [<- | H]; auto.
Qed.

Lemma fmin_choice a b : fmin a b = a \/ fmin a b = b.
Proof. unfold fmin. destruct (SFleb a b || isnan b); auto. Qed.

Lemma fmax_choice a b : fmax a b = a \/ fmax a b = b.
Proof. unfold fmax. destruct (SFleb b a || isnan b); auto. Qed.

(** The finite minimum and maximum are finite entries of the frame. *)
Lemma finitemin_member a v : finitemin a = Ok v -> In v (finite_entries a).
Proof. apply reduce_member, fmin_choice. Qed.

Lemma finitemax_member a v : finitemax a = Ok v -> In v (finite_entries a).
Proof. apply reduce_member, fmax_choice. Qed.

Lemma finite_entries_spec a x :
  In x (finite_entries a) <-> In x (data (px a)) /\ isfinite x = true.
Proof. apply filter_In. Qed.

(** With one finite entry both reductions return. *)
Lemma finite_range_defined a :
  existsb isfinite (data (px a)) = true ->
  exists lo hi, finitemin a = Ok lo /\ finitemax a = Ok hi.
Proof.
  intros H. apply existsb_exists in H as (x & Hx & Hfin).
  assert (Hin : In x (finite_entries a)) by (apply finite_entries_spec; auto).
  unfold finitemin, finitemax, nanmin, nanmax, reduce.
  destruct (finite_entries a) as [| y t]; [destruct Hin |]. eauto.
Qed.

Lemma no_finite_entries a :
  forallb (fun x => negb (isfinite x)) (data (px a)) = true ->
  finite_entries a = [].
Proof.
  unfold finite_entries. intros H.
  induction (data (px a)) as [| x t IH]; [reflexivity |].
  simpl in *. apply andb_true_iff in H as [Hx Ht].
  destruct (isfinite x); [discriminate | auto].
Qed.

Lemma normalize_image_defaults wild a vmin vmax :
  finitemin a = Ok vmin -> finitemax a = Ok vmax ->
  normalize_image wild a None None =
  Ok (amap (fun x => astype_uint8 wild
                       (scaled (dt a) (NpFloat vmin) (NpFloat vmax) x))
           (px a)).
Proof.
  intros H1 H2. unfold normalize_image, default_to. rewrite H1, H2.
  reflexivity.
Qed.

Lemma nth_error_amap {A B} (f : A -> B) a i x :
  nth_error (data a) i = Some x ->
  nth_error (data (amap f a)) i = Some (f x).
Proof. intros H. simpl. rewrite nth_error_map, H. reflexivity. Qed.

Lemma SFeqb_isfinite x y :
  SFeqb x y = true -> isfinite y = true -> isfinite x = true.
Proof.
  intros H Hy.
  destruct (SFeqb_true_cases _ _ H)
    as [(s & s' & -> & ->) | [(s & -> & ->) | (s & m & e & -> & ->)]];
    auto.
Qed.

(** Two equal floats have the same finite, non-zero difference to a
    third. *)
Lemma fsub_eq_left d x y v :
  SFeqb x y = true -> finite_nonzero (fsub d y v) = true ->
  fsub d x v = fsub d y v.
Proof.
  intros H Hd.
  destruct (SFeqb_true_cases _ _ H)
    as [(s & s' & -> & ->) | [(s & -> & ->) | (s & m & e & -> & ->)]];
    [| reflexivity | reflexivity].
  destruct v as [sv | sv | | sv mv ev]; simpl in *;
    try discriminate; try reflexivity.
  destruct s', sv; discriminate.
Qed.

(** A pixel equal to the lower bound scales to a zero. *)
Lemma scaled_at_min d vmin vmax x :
  finite_nonzero (fsub d vmax vmin) = true ->
  SFeqb x vmin = true ->
  is_zero (scaled d (NpFloat vmin) (NpFloat vmax) x) = true.
Proof.
  intros Hd Hx.
  destruct (fsub_finite_nonzero_args _ _ _ Hd) as [_ Hfin].
  pose proof (fsub_eq_zero d x vmin (SFeqb_isfinite _ _ Hx Hfin) Hx) as Hz.
  unfold scaled. cbn [in_dtype scalar_sub].
  destruct (fsub d vmax vmin) as [| | | sD mD eD]; try discriminate.
  destruct (fsub d x vmin) as [s0 | | |]; try discriminate.
  apply fmul_zero_255.
Qed.

(** A pixel equal to the upper bound scales to exactly 255. *)
Lemma scaled_at_max d vmin vmax x :
  finite_nonzero (fsub d vmax vmin) = true ->
  SFeqb x vmax = true ->
  scaled d (NpFloat vmin) (NpFloat vmax) x = of_Z d 255.
Proof.
  intros Hd Hx.
  unfold scaled. cbn [in_dtype scalar_sub].
  rewrite (fsub_eq_left d x vmax vmin Hx Hd).
  destruct (fsub d vmax vmin) as [| | | sD mD eD]; try discriminate.
  rewrite fdiv_self. apply fmul_one_255.
Qed.

(** When every finite entry equals every other, the divisor is a zero. *)
Lemma flat_divisor_zero a vmin vmax :
  (forall x y, In x (finite_entries a) -> In y (finite_entries a) ->
               SFeqb x y = true) ->
  finitemin a = Ok vmin -> finitemax a = Ok vmax ->
  is_zero (fsub (dt a) vmax vmin) = true.
Proof.
  intros Hflat Hmin Hmax.
  apply finitemin_member in Hmin. apply finitemax_member in Hmax.
  apply fsub_eq_zero; [| auto].
  apply finite_entries_spec in Hmax. tauto.
Qed.

(** Over a zero divisor no pixel scales to a finite value, and a finite
    pixel equal to the lower bound scales to NaN. *)
Lemma scaled_zero_divisor d vmin vmax x :
  is_zero (fsub d vmax vmin) = true ->
  isfinite (scaled d (NpFloat vmin) (NpFloat vmax) x) = false.
Proof.
  intros Hz. unfold scaled. cbn [in_dtype scalar_sub].
  destruct (fsub d vmax vmin) as [sD | | |]; try discriminate.
  destruct (fsub d x vmin) as [s0 | s0 | | s0 m0 e0]; destruct d; reflexivity.
Qed.

Lemma scaled_zero_over_zero d vmin vmax x :
  is_zero (fsub d vmax vmin) = true ->
  isfinite x = true -> SFeqb x vmin = true ->
  scaled d (NpFloat vmin) (NpFloat vmax) x = S754_nan.
Proof.
  intros Hz Hfin Hx.
  pose proof (fsub_eq_zero d x vmin Hfin Hx) as Hn.
  unfold scaled. cbn [in_dtype scalar_sub].
  destruct (fsub d vmax vmin) as [sD | | |]; try discriminate.
  destruct (fsub d x vmin) as [s0 | | |]; try discriminate.
  reflexivity.
Qed.

Lemma astype_nonfinite wild x :
  isfinite x = false -> astype_uint8 wild x = wild x mod 256.
Proof. destruct x; try discriminate; reflexivity. Qed.

End Normalisation.

(** ** Claims about normalisation *)

Section NormalisationClaims.

Import DepthView Scenarios.

(** C1, as the code has it: for every depth array whose entries are all
    non-finite, [normalize_image], [depth_as_colorimage] and
    [depth_as_gray], called with the default bounds, raise NumPy's
    [ValueError] (the reduction of a zero-size array) and return nothing. *)
Theorem all_nonfinite_raises_ValueError (wild : spec_float -> Z)
    (lut : colormap -> Z -> list Z) (a : depth_array) (c : colormap) :
  forallb (fun x => negb (isfinite x)) (data (px a)) = true ->
  normalize_image wild a None None = Raise "ValueError" /\
  depth_as_colorimage wild lut a None None c = Raise "ValueError" /\
  depth_as_gray wild a None None = Raise "ValueError".
Proof.
  intros H. apply no_finite_entries in H.
  assert (E : normalize_image wild a None None = Raise "ValueError").
  { unfold normalize_image, default_to, finitemin, nanmin. rewrite H.
    reflexivity. }
  unfold depth_as_colorimage, depth_as_gray. rewrite E. auto.
Qed.

Lemma all_nonfinite_raises_ValueError_witness :
  normalize_image wild_x86_64 nan_frame None None = Raise "ValueError" /\
  depth_as_colorimage wild_x86_64 grey_lut nan_frame None None COLORMAP_INFERNO
    = Raise "ValueError" /\
  depth_as_gray wild_x86_64 nan_frame None None = Raise "ValueError".
Proof.
  apply (all_nonfinite_raises_ValueError wild_x86_64 grey_lut nan_frame
           COLORMAP_INFERNO).
  reflexivity.
Defined.

(** C1 as worded fails: on a frame of NaNs the exception that escapes is
    not one named [EmptyDepthRange]. *)
Lemma all_nan_not_EmptyDepthRange :
  forallb (fun x => negb (isfinite x)) (data (px nan_frame)) = true /\
  normalize_image wild_x86_64 nan_frame None None <> Raise "EmptyDepthRange".
Proof.
  split; [reflexivity |]. intros H. vm_compute in H. discriminate.
Qed.

(** The extremes, given a finite and non-zero divisor. *)
Lemma extremes_over_finite_divisor (wild : spec_float -> Z) (a : depth_array)
    (vmin vmax : spec_float) :
  finitemin a = Ok vmin -> finitemax a = Ok vmax ->
  finite_nonzero (fsub (dt a) vmax vmin) = true ->
  exists out,
    normalize_image wild a None None = Ok out /\
    forall i x, nth_error (data (px a)) i = Some x ->
      (SFeqb x vmin = true -> nth_error (data out) i = Some 0) /\
      (SFeqb x vmax = true -> nth_error (data out) i = Some 255).
Proof.
  intros Hmin Hmax Hd. eexists. split.
  - apply normalize_image_defaults; eassumption.
  - intros i x Hx. split; intros Heq;
      rewrite (nth_error_amap _ _ _ _ Hx); f_equal.
    + apply astype_zero, scaled_at_min; assumption.
    + rewrite scaled_at_max by assumption. apply astype_255.
Qed.

(** C2, as the code has it: for a frame of numbers of its dtype whose
    finite minimum and maximum are distinct and whose range [vmax - vmin]
    does not overflow the dtype, [normalize_image] with the default bounds
    maps every pixel equal to the finite minimum to 0 and every pixel equal
    to the finite maximum to 255. *)
Theorem normalize_image_extremes (wild : spec_float -> Z) (a : depth_array)
    (vmin vmax : spec_float) :
  forallb (valid (dt a)) (data (px a)) = true ->
  finitemin a = Ok vmin -> finitemax a = Ok vmax ->
  SFeqb vmin vmax = false ->
  isfinite (fsub (dt a) vmax vmin) = true ->
  exists out,
    normalize_image wild a None None = Ok out /\
    forall i x, nth_error (data (px a)) i = Some x ->
      (SFeqb x vmin = true -> nth_error (data out) i = Some 0) /\
      (SFeqb x vmax = true -> nth_error (data out) i = Some 255).
Proof.
  intros Hvalid Hmin Hmax Hne Hfin.
  apply extremes_over_finite_divisor; try assumption.
  pose proof (finitemin_member _ _ Hmin) as Imin.
  pose proof (finitemax_member _ _ Hmax) as Imax.
  apply finite_entries_spec in Imin as [Imin Fmin].
  apply finite_entries_spec in Imax as [Imax Fmax].
  rewrite forallb_forall in Hvalid.
  assert (Hz : is_zero (fsub (dt a) vmax vmin) = false).
  { apply fsub_distinct_nonzero; auto.
    destruct (SFeqb vmax vmin) eqn:E; [| reflexivity].
    apply SFeqb_sym_finite in E; [congruence | assumption]. }
  destruct (fsub (dt a) vmax vmin); try discriminate; reflexivity.
Qed.

Lemma normalize_image_extremes_witness :
  exists out,
    normalize_image wild_x86_64 ramp_frame None None = Ok out /\
    forall i x, nth_error (data (px ramp_frame)) i = Some x ->
      (SFeqb x (of_Z float32 1) = true -> nth_error (data out) i = Some 0) /\
      (SFeqb x (of_Z float32 4) = true -> nth_error (data out) i = Some 255).
Proof.
  apply (normalize_image_extremes wild_x86_64 ramp_frame
           (of_Z float32 1) (of_Z float32 4)); reflexivity.
Defined.

(** C2 as worded fails: the two finite values of [overflow_frame] are
    distinct binary64 numbers, their difference overflows to infinity, the
    maximum scales to NaN (infinity over infinity) and an x86-64 build
    stores 0 for it. *)
Lemma overflow_breaks_extremes :
  forallb (valid float64) (data (px overflow_frame)) = true /\
  ~ extremes_to_0_255 wild_x86_64 overflow_frame.
Proof.
  split; [reflexivity |]. intros H.
  destruct (H (SFopp huge) huge eq_refl eq_refl eq_refl) as (out & Hout & Hpx).
  vm_compute in Hout. injection Hout as <-.
  destruct (Hpx 1%nat huge eq_refl) as [_ Hmax].
  specialize (Hmax eq_refl). discriminate.
Qed.

(** Truncation rounds toward zero: it is the quotient [Z.quot] of the
    signed mantissa, scaled by the exponent. *)
Lemma trunc_toward_zero s m e :
  trunc (S754_finite s m e) =
  Some (Z.quot (cond_Zopp s (Zpos m) * 2 ^ Z.max e 0) (2 ^ Z.max (- e) 0)).
Proof.
  unfold trunc. f_equal.
  destruct (Z.le_gt_cases 0 e) as [He | He].
  - rewrite (Z.max_l e 0), (Z.max_r (- e) 0) by lia.
    rewrite Z.pow_0_r, Z.quot_1_r, Z.shiftl_mul_pow2 by lia.
    destruct s; cbn [cond_Zopp]; [| reflexivity].
    change (Z.neg m) with (- Z.pos m). ring.
  - rewrite (Z.max_r e 0), (Z.max_l (- e) 0) by lia.
    rewrite Z.pow_0_r, Z.mul_1_r, Z.shiftl_div_pow2 by lia.
    assert (0 < 2 ^ (- e)) by (apply Z.pow_pos_nonneg; lia).
    destruct s; cbn [cond_Zopp].
    + change (Z.neg m) with (- Z.pos m).
      rewrite Z.quot_opp_l, Z.quot_div_nonneg by lia. reflexivity.
    + rewrite Z.quot_div_nonneg by lia. reflexivity.
Qed.

(** The literal [255.0] in the arithmetic of a dtype. *)
Lemma lit_255_in_dtype d :
  in_dtype d lit_255 = binary_normalize (prec d) (emax d) 255 0 false.
Proof. destruct d; reflexivity. Qed.

(** C3: for every depth array with at least one finite value, whatever
    bounds are supplied, [normalize_image] returns an array of the input's
    shape whose entries are 8-bit unsigned values. With [lo] the lower
    bound and [range] the difference [vmax - vmin], both as the
    arithmetic of the frame's dtype sees them (a supplied bound is
    rounded to the dtype; two supplied bounds are subtracted in binary64
    first), the entry of a pixel [x] is decided by the IEEE value
    [v = (x - lo) / range * 255]: when [v] is a number whose truncation
    toward zero lies in 0..255, the entry is that truncation (the integer
    quotient of [m * 2^e]); otherwise it is what the platform's conversion
    stores. *)
Theorem normalize_image_uint8 (wild : spec_float -> Z) (a : depth_array)
    (vmax vmin : option spec_float) :
  existsb isfinite (data (px a)) = true ->
  exists lo range out,
    match vmin, vmax with
    | None, None =>
        exists hi, finitemin a = Ok lo /\ finitemax a = Ok hi /\
                   range = SFsub (prec (dt a)) (emax (dt a)) hi lo
    | None, Some h =>
        finitemin a = Ok lo /\
        range = SFsub (prec (dt a)) (emax (dt a)) (as_dtype (dt a) h) lo
    | Some l, None =>
        exists hi, lo = as_dtype (dt a) l /\ finitemax a = Ok hi /\
                   range = SFsub (prec (dt a)) (emax (dt a)) hi lo
    | Some l, Some h =>
        lo = as_dtype (dt a) l /\
        range = as_dtype (dt a) (SFsub 53 1024 h l)
    end /\
    normalize_image wild a vmax vmin = Ok out /\
    shape out = shape (px a) /\
    List.length (data out) = List.length (data (px a)) /\
    Forall (fun b => 0 <= b <= 255) (data out) /\
    forall i x, nth_error (data (px a)) i = Some x ->
      exists b, nth_error (data out) i = Some b /\
        let v := SFmul (prec (dt a)) (emax (dt a))
                   (SFdiv (prec (dt a)) (emax (dt a))
                      (SFsub (prec (dt a)) (emax (dt a)) x lo) range)
                   (binary_normalize (prec (dt a)) (emax (dt a)) 255 0 false) in
        match v with
        | S754_zero _ => b = 0
        | S754_finite s m e =>
            let n := Z.quot (cond_Zopp s (Zpos m) * 2 ^ Z.max e 0)
                            (2 ^ Z.max (- e) 0) in
            if (0 <=? n) && (n <=? 255) then b = n else b = wild v mod 256
        | S754_infinity _ | S754_nan => b = wild v mod 256
        end.
Proof.
  intros H. destruct (finite_range_defined a H) as (fmin' & fmax' & Hmin & Hmax).
  set (lo' := match vmin with Some l => PyFloat l | None => NpFloat fmin' end).
  set (hi' := match vmax with Some h => PyFloat h | None => NpFloat fmax' end).
  assert (Hlo : default_to (finitemin a) vmin = Ok lo').
  { subst lo'. destruct vmin; simpl; [reflexivity | rewrite Hmin; reflexivity]. }
  assert (Hhi : default_to (finitemax a) vmax = Ok hi').
  { subst hi'. destruct vmax; simpl; [reflexivity | rewrite Hmax; reflexivity]. }
  exists (in_dtype (dt a) lo'), (in_dtype (dt a) (scalar_sub (dt a) hi' lo')),
    (amap (fun x => astype_uint8 wild (scaled (dt a) lo' hi' x)) (px a)).
  split.
  { subst lo' hi'. destruct vmin as [l |], vmax as [h |]; cbn [in_dtype scalar_sub].
    - split; reflexivity.
    - exists fmax'. repeat split; assumption.
    - split; [assumption | reflexivity].
    - exists fmax'. repeat split; assumption. }
  split; [unfold normalize_image; rewrite Hlo, Hhi; reflexivity |].
  split; [reflexivity |].
  split; [apply length_map |].
  split.
  { simpl. rewrite Forall_map. apply Forall_forall. intros x _.
    apply astype_range. }
  intros i x Hx. eexists. split; [exact (nth_error_amap _ _ _ _ Hx) |].
  cbv zeta. rewrite <- lit_255_in_dtype.
  change (SFmul (prec (dt a)) (emax (dt a))
            (SFdiv (prec (dt a)) (emax (dt a))
               (SFsub (prec (dt a)) (emax (dt a)) x (in_dtype (dt a) lo'))
               (in_dtype (dt a) (scalar_sub (dt a) hi' lo')))
            (in_dtype (dt a) lit_255))
    with (scaled (dt a) lo' hi' x).
  unfold astype_uint8.
  destruct (scaled (dt a) lo' hi' x) as [s | s | | s m e] eqn:Ev;
    try reflexivity.
  rewrite trunc_toward_zero.
  destruct ((0 <=? _) && (_ <=? 255)); reflexivity.
Qed.

Lemma normalize_image_uint8_witness :
  exists lo range out,
    (finitemin ramp_frame = Ok lo /\
     range = SFsub (prec (dt ramp_frame)) (emax (dt ramp_frame))
               (as_dtype (dt ramp_frame) (of_Z float64 3)) lo) /\
    normalize_image wild_x86_64 ramp_frame (Some (of_Z float64 3)) None = Ok out /\
    shape out = shape (px ramp_frame) /\
    List.length (data out) = List.length (data (px ramp_frame)) /\
    Forall (fun b => 0 <= b <= 255) (data out) /\
    forall i x, nth_error (data (px ramp_frame)) i = Some x ->
      exists b, nth_error (data out) i = Some b /\
        let v := SFmul (prec (dt ramp_frame)) (emax (dt ramp_frame))
                   (SFdiv (prec (dt ramp_frame)) (emax (dt ramp_frame))
                      (SFsub (prec (dt ramp_frame)) (emax (dt ramp_frame)) x lo)
                      range)
                   (binary_normalize (prec (dt ramp_frame)) (emax (dt ramp_frame))
                      255 0 false) in
        match v with
        | S754_zero _ => b = 0
        | S754_finite s m e =>
            let n := Z.quot (cond_Zopp s (Zpos m) * 2 ^ Z.max e 0)
                            (2 ^ Z.max (- e) 0) in
            if (0 <=? n) && (n <=? 255) then b = n
            else b = wild_x86_64 v mod 256
        | S754_infinity _ | S754_nan => b = wild_x86_64 v mod 256
        end.
Proof.
  apply (normalize_image_uint8 wild_x86_64 ramp_frame
           (Some (of_Z float64 3)) None).
  reflexivity.
Defined.

(** C10: for every depth array that has finite entries, all equal, the
    default bounds coincide, [vmax - vmin] is a zero and nothing guards the
    division: [normalize_image] returns without an error, no pixel scales
    to a finite value (a finite pixel scales to NaN, zero over zero), and
    what is stored is whatever the platform's conversion makes of it. *)
Theorem normalize_image_flat_divides_by_zero (wild : spec_float -> Z)
    (a : depth_array) :
  existsb isfinite (data (px a)) = true ->
  (forall x y, In x (finite_entries a) -> In y (finite_entries a) ->
               SFeqb x y = true) ->
  exists vmin vmax out,
    finitemin a = Ok vmin /\ finitemax a = Ok vmax /\
    is_zero (fsub (dt a) vmax vmin) = true /\
    normalize_image wild a None None = Ok out /\
    forall i x, nth_error (data (px a)) i = Some x ->
      let v := scaled (dt a) (NpFloat vmin) (NpFloat vmax) x in
      isfinite v = false /\
      (isfinite x = true -> v = S754_nan) /\
      nth_error (data out) i = Some (wild v mod 256).
Proof.
  intros H Hflat.
  destruct (finite_range_defined a H) as (vmin & vmax & Hmin & Hmax).
  pose proof (flat_divisor_zero a vmin vmax Hflat Hmin Hmax) as Hz.
  exists vmin, vmax,
    (amap (fun x => astype_uint8 wild
                      (scaled (dt a) (NpFloat vmin) (NpFloat vmax) x)) (px a)).
  split; [exact Hmin |]. split; [exact Hmax |]. split; [exact Hz |].
  split; [apply normalize_image_defaults; assumption |].
  intros i x Hx v. subst v. split; [| split].
  - apply scaled_zero_divisor; assumption.
  - intros Hfin. apply scaled_zero_over_zero; [assumption .. |].
    apply Hflat; [| apply finitemin_member; assumption].
    apply finite_entries_spec. split; [| assumption].
    eapply nth_error_In; eassumption.
  - rewrite (nth_error_amap _ _ _ _ Hx). f_equal.
    apply astype_nonfinite, scaled_zero_divisor; assumption.
Qed.

Lemma normalize_image_flat_divides_by_zero_witness :
  exists vmin vmax out,
    finitemin flat_frame = Ok vmin /\ finitemax flat_frame = Ok vmax /\
    is_zero (fsub (dt flat_frame) vmax vmin) = true /\
    normalize_image wild_x86_64 flat_frame None None = Ok out /\
    forall i x, nth_error (data (px flat_frame)) i = Some x ->
      let v := scaled (dt flat_frame) (NpFloat vmin) (NpFloat vmax) x in
      isfinite v = false /\
      (isfinite x = true -> v = S754_nan) /\
      nth_error (data out) i = Some (wild_x86_64 v mod 256).
Proof.
  apply (normalize_image_flat_divides_by_zero wild_x86_64 flat_frame).
  - reflexivity.
  - intros x y Hx Hy. vm_compute in Hx, Hy.
    destruct Hx as [<- | [<- | []]], Hy as [<- | [<- | []]]; reflexivity.
Defined.

End NormalisationClaims.

(** ** Claims about [resize_image] *)

Section ResizeClaims.

Import DepthView Scenarios.

Lemma scaled_dim_zero rate w : scaled_dim 0 rate = Ok w -> w = 0.
Proof.
  unfold scaled_dim, int_times_float. simpl.
  destruct rate as [s | s | | s m e]; simpl; try discriminate;
    intros [= <-]; reflexivity.
Qed.

(** What [Cv2.resize] does once its arguments are acceptable. *)
Lemma resize_accepted resample image H W rest w h :
  shape image = H :: W :: rest ->
  (rest = [] \/ exists c, rest = [c] /\ (1 <= c <= 512)%nat) ->
  (1 <= H)%nat -> (1 <= W)%nat ->
  1 <= w <= 2 ^ 31 - 1 -> 1 <= h <= 2 ^ 31 - 1 ->
  Cv2.resize resample image w h =
    (pixels <- resample image w h ;;
     Ok (mk_ndarray (Z.to_nat h :: Z.to_nat w ::
                       match rest with [1%nat] => [] | _ => rest end) pixels)).
Proof.
  intros Hs Hrest HH HW Hw Hh. unfold Cv2.resize, INT_MAX.
  replace (w <=? 0) with false by (symmetry; apply Z.leb_gt; lia).
  replace (h <=? 0) with false by (symmetry; apply Z.leb_gt; lia).
  replace (2 ^ 31 - 1 <? w) with false by (symmetry; apply Z.ltb_ge; lia).
  replace (2 ^ 31 - 1 <? h) with false by (symmetry; apply Z.ltb_ge; lia).
  cbn [orb]. rewrite Hs.
  destruct Hrest as [-> | (c & -> & Hc)]; cbn [as_image].
  - replace (H * W * 1 =? 0)%nat with false by (symmetry; apply Nat.eqb_neq; nia).
    reflexivity.
  - unfold CV_CN_MAX.
    replace (c <=? 512)%nat with true by (symmetry; apply Nat.leb_le; lia).
    replace (H * W * c =? 0)%nat with false by (symmetry; apply Nat.eqb_neq; nia).
    unfold of_image.
    destruct c as [| [| c]]; [lia | reflexivity | reflexivity].
Qed.



(** Size 10 at scale 0.33: the product is just above 3.3 and truncates
    to 3. *)
Example scaled_dim_10_at_0_33 : scaled_dim 10 lit_0_33 = Ok 3.
Proof. reflexivity. Qed.


End ResizeClaims.

(** ** Runs: traces and endings *)

Section Runs.

Lemma seq_done {A B} (m : io A) (k : A -> io B) t a :
  m = (t, Done a) ->
  seq m k = (t ++ trace (k a), outcome (k a)).
Proof. intros ->. unfold seq. destruct (k a); reflexivity. Qed.

Lemma seq_not_done {A B} (m : io A) (k : A -> io B) :
  (forall a, outcome m <> Done a) ->
  trace (seq m k) = trace m /\
  (forall b, outcome (seq m k) <> Done b).
Proof.
  destruct m as [t [a | c | n |]]; simpl; intros H.
  - destruct (H a eq_refl).
  - split; [reflexivity | discriminate].
  - split; [reflexivity | discriminate].
  - split; [reflexivity | discriminate].
Qed.

Lemma only_seq {A B} P (m : io A) (k : A -> io B) :
  only P m -> (forall a, only P (k a)) -> only P (seq m k).
Proof.
  unfold only. destruct m as [t [a | c | n |]]; simpl; intros Hm Hk; auto.
  specialize (Hk a). destruct (k a) as [t' e]. simpl in *.
  apply Forall_app; auto.
Qed.

Lemma only_lift {A} P (r : result A) : only P (lift r).
Proof. destruct r; constructor. Qed.

Lemma only_ret {A} P (a : A) : only P (ret a).
Proof. constructor. Qed.

Lemma only_exit {A} P n : only P (@exit A n).
Proof. constructor. Qed.

Lemma only_assert P b : only P (assert b).
Proof. destruct b; constructor. Qed.

Lemma only_emit (P : event -> Prop) e : P e -> only P (emit e).
Proof. intros H. constructor; [exact H | constructor]. Qed.

Lemma only_sleep (P : event -> Prop) n : P (Sleep n) -> only P (sleep n).
Proof.
  intros H. unfold sleep. destruct (n <? 0); [constructor |].
  apply only_emit, H.
Qed.

Lemma only_imwrite (P : event -> Prop) p img :
  (forall i, P (Imwrite p i)) -> only P (imwrite p img).
Proof.
  intros H. destruct img as [i |]; [apply only_emit, H | constructor].
Qed.

Lemma only_for_each {A} P (body : A -> io unit) l :
  (forall x, only P (body x)) -> only P (for_each body l).
Proof.
  intros H. induction l as [| x t IH]; simpl.
  - constructor.
  - apply only_seq; auto.
Qed.

(** When every pass returns, the loop returns and its trace is the passes'
    traces one after the other. *)
Lemma for_each_all_done {A} (body : A -> io unit) l :
  Forall (fun x => outcome (body x) = Done tt) l ->
  for_each body l = (flat_map (fun x => trace (body x)) l, Done tt).
Proof.
  induction 1 as [| x t Hx Ht IH]; [reflexivity |].
  simpl. destruct (body x) as [tx ex] eqn:E. simpl in Hx. subst ex.
  rewrite (seq_done _ _ tx tt eq_refl), IH. reflexivity.
Qed.

End Runs.


(** ** Claims about 2D playback *)

Section PlaybackClaims.

Import DepthView Scenarios.

Lemma insert_sorted_length x l :
  List.length (insert_sorted x l) = S (List.length l).
Proof.
  induction l as [| y t IH]; simpl; [reflexivity |].
  destruct (path_ltb x y); simpl; auto.
Qed.

Lemma insert_sorted_Permutation x l : Permutation (x :: l) (insert_sorted x l).
Proof.
  induction l as [| y t IH]; simpl; [reflexivity |].
  destruct (path_ltb x y); [reflexivity |].
  rewrite perm_swap. constructor. exact IH.
Qed.

(** [sorted] rearranges its argument and loses nothing. *)
Lemma sorted_Permutation l : Permutation l (sorted l).
Proof.
  unfold sorted.
  assert (G : forall acc, Permutation (l ++ acc)
                            (fold_left (fun a x => insert_sorted x a) l acc)).
  { induction l as [| x t IH]; intros acc; simpl; [reflexivity |].
    etransitivity; [| apply IH].
    etransitivity; [apply Permutation_middle |].
    apply Permutation_app_head, insert_sorted_Permutation. }
  specialize (G []). rewrite app_nil_r in G. exact G.
Qed.

Lemma string_compare_refl x : String.compare x x = Eq.
Proof.
  pose proof (String.compare_antisym x x) as H.
  destruct (String.compare x x); simpl in H; congruence.
Qed.

Lemma string_ltb_irrefl x : String.ltb x x = false.
Proof. unfold String.ltb. rewrite string_compare_refl. reflexivity. Qed.

Lemma path_ltb_asym p q : path_ltb p q = true -> path_ltb q p = false.
Proof.
  revert q. induction p as [| x p' IH]; intros [| y q']; simpl; auto.
  destruct (String.ltb x y) eqn:Hlt.
  - intros _. unfold String.ltb in *.
    rewrite String.compare_antisym.
    destruct (String.compare x y) eqn:C; try discriminate. simpl.
    destruct (String.eqb y x) eqn:E; [| reflexivity].
    apply String.eqb_eq in E. subst y.
    rewrite string_compare_refl in C. discriminate.
  - destruct (String.eqb x y) eqn:E; [| discriminate].
    apply String.eqb_eq in E. subst y. intros H.
    rewrite string_ltb_irrefl, String.eqb_refl. apply IH, H.
Qed.

Lemma insert_sorted_HdRel x y l :
  path_le y x -> HdRel path_le y l -> HdRel path_le y (insert_sorted x l).
Proof.
  intros Hyx Hl. destruct l as [| z t]; simpl.
  - constructor. exact Hyx.
  - destruct (path_ltb x z); constructor; [exact Hyx |].
    inversion Hl; assumption.
Qed.

Lemma insert_sorted_Sorted x l :
  Sorted path_le l -> Sorted path_le (insert_sorted x l).
Proof.
  induction 1 as [| y t Ht IH Hd]; simpl.
  - repeat constructor.
  - destruct (path_ltb x y) eqn:E.
    + constructor; [constructor; assumption |].
      constructor. apply path_ltb_asym, E.
    + constructor; [exact IH |].
      apply insert_sorted_HdRel; [exact E | exact Hd].
Qed.

(** [sorted] returns its argument in ascending order. *)
Lemma sorted_Sorted l : Sorted path_le (sorted l).
Proof.
  unfold sorted.
  assert (G : forall acc, Sorted path_le acc ->
                Sorted path_le (fold_left (fun a x => insert_sorted x a) l acc)).
  { induction l as [| x t IH]; intros acc Hacc; simpl; [exact Hacc |].
    apply IH, insert_sorted_Sorted, Hacc. }
  apply G. constructor.
Qed.

Lemma sorted_length l : List.length (sorted l) = List.length l.
Proof. symmetry. apply Permutation_length, sorted_Permutation. Qed.

(** A pass that returns has shown exactly one image. *)
Lemma show_pair_one_pass wild lut fs args p :
  outcome (show_pair wild lut fs args p) = Done tt ->
  passes (trace (show_pair wild lut fs args p)) = 1%nat.
Proof.
  destruct p as [leftname depth_name].
  unfold show_pair, seq, lift, emit, assert, sleep, ret.
  destruct (np_load fs depth_name) as [depth |]; [| discriminate].
  destruct (colored wild lut args depth) as [[cd |] |];
    [| destruct (imread fs leftname); discriminate | discriminate].
  destruct (imread fs leftname) as [image |]; [| discriminate].
  destruct (shape_eqb (shape image) (shape cd)); [| discriminate].
  destruct (concatenate_axis1 image cd) as [results |]; [| discriminate].
  destruct (sec args <? 0); [discriminate |].
  reflexivity.
Qed.

Lemma passes_app t t' : passes (t ++ t') = (passes t + passes t')%nat.
Proof. unfold passes. rewrite filter_app, length_app. reflexivity. Qed.

Lemma passes_flat_map {A} (f : A -> list event) l :
  Forall (fun x => passes (f x) = 1%nat) l ->
  passes (flat_map f l) = List.length l.
Proof.
  induction 1 as [| x t Hx Ht IH]; [reflexivity |].
  simpl. rewrite passes_app, Hx, IH. reflexivity.
Qed.

(** C6, as the code has it: 2D playback pairs the sorted left images with
    the sorted depth arrays, position by position; when every pass returns,
    it returns after exactly as many passes as the shorter of these two
    collections has entries (two for 3 left images and 2 depth arrays). *)
Theorem view_by_colormap_pairs (wild : spec_float -> Z)
    (lut : colormap -> Z -> list Z) (fs : files) (args : viewer_args) :
  let left_images := glob fs (path_div (captured_dir args) "left") "**/*.png" in
  let depth_npys := glob fs (path_div (captured_dir args) "zed-depth") "**/*.npy" in
  let pairs := combine (sorted left_images) (sorted depth_npys) in
  Forall (fun p => outcome (show_pair wild lut fs args p) = Done tt) pairs ->
  view_by_colormap wild lut fs args =
    (flat_map (fun p => trace (show_pair wild lut fs args p)) pairs, Done tt) /\
  passes (trace (view_by_colormap wild lut fs args)) =
    Nat.min (List.length left_images) (List.length depth_npys) /\
  (List.length left_images = 3%nat -> List.length depth_npys = 2%nat ->
   passes (trace (view_by_colormap wild lut fs args)) = 2%nat).
Proof.
  intros left_images depth_npys pairs Hall.
  assert (E : view_by_colormap wild lut fs args =
              (flat_map (fun p => trace (show_pair wild lut fs args p)) pairs,
               Done tt)).
  { unfold view_by_colormap. apply for_each_all_done. exact Hall. }
  assert (N : passes (trace (view_by_colormap wild lut fs args)) =
              Nat.min (List.length left_images) (List.length depth_npys)).
  { rewrite E. simpl. rewrite passes_flat_map.
    - unfold pairs. rewrite length_combine, !sorted_length. reflexivity.
    - eapply Forall_impl; [| exact Hall].
      intros p Hp. apply show_pair_one_pass, Hp. }
  split; [exact E |]. split; [exact N |].
  intros H3 H2. rewrite N, H3, H2. reflexivity.
Qed.

(** Three left images, three right images and two depth arrays: two
    passes, and no exception for the third left image. *)
Lemma view_by_colormap_pairs_witness :
  let fs := session three_left three_right two_depth in
  let args := default_viewer_args in
  let left_images := glob fs (path_div (captured_dir args) "left") "**/*.png" in
  let depth_npys := glob fs (path_div (captured_dir args) "zed-depth") "**/*.npy" in
  let pairs := combine (sorted left_images) (sorted depth_npys) in
  view_by_colormap wild_x86_64 grey_lut fs args =
    (flat_map (fun p => trace (show_pair wild_x86_64 grey_lut fs args p)) pairs,
     Done tt) /\
  passes (trace (view_by_colormap wild_x86_64 grey_lut fs args)) =
    Nat.min (List.length left_images) (List.length depth_npys) /\
  (List.length left_images = 3%nat -> List.length depth_npys = 2%nat ->
   passes (trace (view_by_colormap wild_x86_64 grey_lut fs args)) = 2%nat).
Proof.
  apply (view_by_colormap_pairs wild_x86_64 grey_lut
           (session three_left three_right two_depth) default_viewer_args).
  vm_compute. repeat constructor.
Defined.

(** The right images play no part: two file systems that answer alike for
    the left images and the depth arrays play back alike. *)
Lemma view_by_colormap_ignores_right wild lut args g g' rd ld :
  g (path_div (captured_dir args) "left") "**/*.png"%string =
    g' (path_div (captured_dir args) "left") "**/*.png"%string ->
  g (path_div (captured_dir args) "zed-depth") "**/*.npy"%string =
    g' (path_div (captured_dir args) "zed-depth") "**/*.npy"%string ->
  view_by_colormap wild lut (mk_files g rd ld) args =
  view_by_colormap wild lut (mk_files g' rd ld) args.
Proof.
  intros Hl Hd. unfold view_by_colormap. cbn [glob].
  rewrite Hl, Hd. reflexivity.
Qed.

(** C6 as worded fails: with one left image, no right image and one depth
    array the shortest collection is empty, yet one pair is shown. *)
Lemma right_images_do_not_bound_playback :
  let fs := session [in_dir "left" "left_00000.png"] []
                    [in_dir "zed-depth" "zeddepth_00000.npy"] in
  passes (trace (view_by_colormap wild_x86_64 grey_lut fs default_viewer_args))
    = 1%nat /\
  ~ stops_at_shortest wild_x86_64 grey_lut fs default_viewer_args.
Proof.
  split; [reflexivity |]. intros H. vm_compute in H. discriminate.
Qed.

End PlaybackClaims.

(** ** Claims about the capture command *)

Section CaptureClaims.

Import DepthView ZedCapture Scenarios.

Lemma parse_args_to_params_only P args init :
  (forall m, P (Stdout m)) -> only P (parse_args_to_params args init).
Proof.
  intros HP.
  assert (Hsay : forall s, only P (say s)) by (intros s; apply only_emit, HP).
  unfold parse_args_to_params, parse_input, parse_resolution.
  repeat first
    [ apply only_seq; [| intros ? ]
    | apply Hsay | apply only_lift | apply only_ret
    | match goal with
      | |- only _ (if ?b then _ else _) => destruct b
      end ].
Qed.

Lemma capture_frame_only P lut col dirs counter f :
  (forall e, not_an_open e -> not_a_release e -> P e) ->
  only P (capture_frame lut col dirs counter f).
Proof.
  intros HP. destruct dirs as [[leftdir rightdir] zeddepthdir].
  unfold capture_frame, bgr_of, say.
  repeat first
    [ apply only_seq; [| intros ? ]
    | apply only_lift | apply only_ret | apply only_assert
    | apply only_emit; apply HP; exact I
    | apply only_imwrite; intros ?; apply HP; exact I ].
Qed.

Lemma capture_loop_failed lut col rp dirs code rest counter :
  capture_loop lut col rp dirs (GrabFailed code :: rest) counter =
  (emit (Grab rp) ;;; capture_loop lut col rp dirs rest counter).
Proof. reflexivity. Qed.

Lemma capture_loop_grabbed lut col rp dirs f rest counter :
  capture_loop lut col rp dirs (Grabbed f :: rest) counter =
  (emit (Grab rp) ;;;
   quit <~ capture_frame lut col dirs counter f ;;
   if (quit : bool) then exit 0
   else capture_loop lut col rp dirs rest (S counter)).
Proof. reflexivity. Qed.

Lemma capture_loop_only P lut col rp dirs script counter :
  (forall e, not_an_open e -> not_a_release e -> P e) ->
  only P (capture_loop lut col rp dirs script counter).
Proof.
  intros HP. revert counter.
  induction script as [| [code | f] rest IH]; intros counter.
  - constructor.
  - rewrite capture_loop_failed.
    apply only_seq; [apply only_emit, HP; exact I | intros _; apply IH].
  - rewrite capture_loop_grabbed.
    apply only_seq; [apply only_emit, HP; exact I | intros _].
    apply only_seq; [apply capture_frame_only, HP | intros quit].
    destruct quit; [apply only_exit | apply IH].
Qed.

Lemma outcome_seq_emit {A} e (m : io A) :
  outcome (emit e ;;; m) = outcome m.
Proof. unfold seq, emit. destruct m. reflexivity. Qed.

(** [while True] has no [break]: the loop never returns. *)
Lemma capture_loop_never_returns lut col rp dirs script counter :
  forall u, outcome (capture_loop lut col rp dirs script counter) <> Done u.
Proof.
  revert counter.
  induction script as [| [code | f] rest IH]; intros counter u.
  - discriminate.
  - rewrite capture_loop_failed, outcome_seq_emit. apply IH.
  - rewrite capture_loop_grabbed, outcome_seq_emit.
    destruct (capture_frame lut col dirs counter f) as [t [quit | c | n |]] eqn:E;
      try (unfold seq; discriminate).
    rewrite (seq_done _ _ t quit eq_refl). simpl.
    destruct quit; [discriminate | apply IH].
Qed.

Lemma only_seq_stuck {A B} P (m : io A) (k : A -> io B) :
  only P m -> (forall a, outcome m <> Done a) -> only P (seq m k).
Proof.
  intros Hm Hn. unfold only.
  destruct (seq_not_done m k Hn) as [-> _]. exact Hm.
Qed.

(** Whatever the flags, the camera is only ever opened at 2K. *)
Lemma capture_main_opens_HD2K lut col cam args :
  only (opens_with HD2K) (capture_main lut col cam args).
Proof.
  assert (HP : forall e, not_an_open e -> not_a_release e -> opens_with HD2K e).
  { intros [] Ho Hr; try exact I. destruct Ho. }
  unfold capture_main.
  repeat (apply only_seq; [apply only_emit; exact I | intros _]).
  apply only_seq; [apply parse_args_to_params_only; intros m; exact I |].
  intros init_params.
  apply only_seq; [apply only_emit; reflexivity | intros _].
  destruct (negb (is_success _)).
  - apply only_seq; [apply only_emit; exact I | intros _; apply only_exit].
  - repeat (apply only_seq; [apply only_emit; exact I | intros _]).
    apply only_seq; [apply capture_loop_only, HP | intros _].
    apply only_emit. exact I.
Qed.

(** No run of [capture_main] closes the camera or destroys a window: the
    [close] after the loop is never reached. *)
Lemma capture_main_never_releases lut col cam args :
  only not_a_release (capture_main lut col cam args).
Proof.
  unfold capture_main.
  repeat (apply only_seq; [apply only_emit; exact I | intros _]).
  apply only_seq; [apply parse_args_to_params_only; intros m; exact I |].
  intros init_params.
  apply only_seq; [apply only_emit; exact I | intros _].
  destruct (negb (is_success _)).
  - apply only_seq; [apply only_emit; exact I | intros _; apply only_exit].
  - repeat (apply only_seq; [apply only_emit; exact I | intros _]).
    apply only_seq_stuck.
    + apply capture_loop_only. intros e _ He. exact He.
    + apply capture_loop_never_returns.
Qed.

(** C4 fails on the code: asked for 720p, [parse_args_to_params] selects
    HD720 and says so, and [capture_main] then opens the camera at HD2K;
    without the flag the resolution is left to the SDK by the parser, and
    the camera is opened at HD2K all the same. *)
Theorem resolution_flag_is_overridden (lut : colormap -> Z -> list Z)
    (col : depth_array -> result (ndarray Z)) (cam : camera) :
  parse_args_to_params hd720_args fresh_init =
    ([Stdout (Text "[Sample] Using Camera in resolution HD720")],
     Done (mk_init None (Some HD720) None)) /\
  (exists rest,
    trace (capture_main lut col cam hd720_args) =
    [Mkdir ["outdir"; "left"]%string; Mkdir ["outdir"; "right"]%string;
     Mkdir ["outdir"; "zed-depth"]%string;
     Stdout (Text "[Sample] Using Camera in resolution HD720");
     CameraOpen (mk_init None (Some HD2K) (Some ULTRA))] ++ rest) /\
  parse_args_to_params default_capture_args fresh_init =
    ([Stdout (Text "[Sample] Using default resolution")],
     Done (mk_init None None None)) /\
  (exists rest,
    trace (capture_main lut col cam default_capture_args) =
    [Mkdir ["outdir"; "left"]%string; Mkdir ["outdir"; "right"]%string;
     Mkdir ["outdir"; "zed-depth"]%string;
     Stdout (Text "[Sample] Using default resolution");
     CameraOpen (mk_init None (Some HD2K) (Some ULTRA))] ++ rest).
Proof.
  split; [reflexivity |]. split; [| split; [reflexivity |]].
  - unfold capture_main. cbn -[capture_loop].
    destruct (is_success _); cbn -[capture_loop].
    + destruct (capture_loop _ _ _ _ _ _) as [t [[] | c | n |]];
        eexists; reflexivity.
    + eexists; reflexivity.
  - unfold capture_main. cbn -[capture_loop].
    destruct (is_success _); cbn -[capture_loop].
    + destruct (capture_loop _ _ _ _ _ _) as [t [[] | c | n |]];
        eexists; reflexivity.
    + eexists; reflexivity.
Qed.

(** C5 fails on the code: [depth_view] defines [depth_as_colorimage] and
    no [as_colorimage], so loading the capture module raises [ImportError]
    and the capture command ends there, before [main] and its loop. *)
Theorem as_colorimage_is_not_defined (lut : colormap -> Z -> list Z)
    (col : depth_array -> result (ndarray Z)) (cam : camera)
    (args : capture_args) :
  In "depth_as_colorimage"%string module_names /\
  ~ In "as_colorimage"%string module_names /\
  load_module = Raise "ImportError" /\
  capture_command lut col cam args = ([], Raised "ImportError").
Proof.
  split; [simpl; tauto |].
  split; [| split; reflexivity].
  simpl. intros H. repeat (destruct H as [H | H]; [discriminate |]). exact H.
Qed.

(** C7 fails on the code: when both a replay file and a network address
    are supplied, [main] would write the usage message and exit before
    the camera is opened; but the capture command loads the module first,
    the import of [as_colorimage] raises [ImportError] and the command
    ends there, so the usage message is never written. *)
Theorem usage_error_is_never_reported (lut : colormap -> Z -> list Z)
    (col : depth_array -> result (ndarray Z)) (cam : camera)
    (args : capture_args) :
  (0 < String.length (input_svo_file args))%nat ->
  (0 < String.length (ip_address args))%nat ->
  main lut col cam args =
    ([Stdout (Text "Specify only input_svo_file or ip_address, or none to use wired camera, not both. Exit program")],
     Exited 0) /\
  capture_command lut col cam args = ([], Raised "ImportError") /\
  ~ In (Stdout (Text "Specify only input_svo_file or ip_address, or none to use wired camera, not both. Exit program"))
       (trace (capture_command lut col cam args)).
Proof.
  intros Hsvo Hip. split; [| split].
  - unfold main.
    apply Nat.ltb_lt in Hsvo, Hip. rewrite Hsvo, Hip. reflexivity.
  - reflexivity.
  - intros [].
Qed.

Lemma usage_error_is_never_reported_witness :
  let args := mk_capture_args "replay.svo" "192.168.0.7:30000" EmptyString
                (of_Z float64 100) ["outdir"%string] in
  main grey_lut colorize quit_camera args =
    ([Stdout (Text "Specify only input_svo_file or ip_address, or none to use wired camera, not both. Exit program")],
     Exited 0) /\
  capture_command grey_lut colorize quit_camera args = ([], Raised "ImportError") /\
  ~ In (Stdout (Text "Specify only input_svo_file or ip_address, or none to use wired camera, not both. Exit program"))
       (trace (capture_command grey_lut colorize quit_camera args)).
Proof.
  apply (usage_error_is_never_reported grey_lut colorize quit_camera
           (mk_capture_args "replay.svo" "192.168.0.7:30000" EmptyString
              (of_Z float64 100) ["outdir"%string])); simpl; lia.
Defined.

(** C9 fails on the code. Capture: after one frame and the quit key the
    run ends in [exit()] with the camera opened and the preview window
    created, and no event closes or destroys either. 3D playback: when a
    depth file cannot be loaded the exception escapes after the
    visualisation window was created, and the window is not destroyed. *)
Theorem exits_leave_handles_open :
  (let run := capture_main grey_lut colorize quit_camera hd720_args in
   outcome run = Exited 0 /\
   In (CameraOpen (mk_init None (Some HD2K) (Some ULTRA))) (trace run) /\
   In (NamedWindow title) (trace run) /\
   only not_a_release run) /\
  (let run := view3d broken_session default_viewer_args in
   outcome run = Raised "OSError" /\
   In CreateWindow (trace run) /\
   only not_a_release run).
Proof.
  split.
  - split; [reflexivity |].
    split; [vm_compute; tauto |].
    split; [vm_compute; tauto |].
    apply capture_main_never_releases.
  - split; [reflexivity |].
    split; [vm_compute; tauto |].
    vm_compute. repeat constructor.
Qed.

(** 3D playback destroys its window when the loop runs to its end. *)
Lemma view3d_returns_after_destroy fs args :
  outcome (view3d fs args) = Done tt ->
  exists t, trace (view3d fs args) = t ++ [DestroyWindow].
Proof.
  unfold view3d.
  set (loop := for_each _ _).
  unfold seq at 1. unfold emit at 1.
  destruct (loop ;;; emit DestroyWindow) as [t e] eqn:E. simpl.
  intros ->.
  destruct loop as [tl [[] | c | n |]]; simpl in E; try discriminate.
  injection E as <-. exists (CreateWindow :: tl). reflexivity.
Qed.

Lemma show_cloud_only fs args p : only not_a_release (show_cloud fs args p).
Proof.
  destruct p as [leftname depth_name]. unfold show_cloud.
  apply only_seq; [apply only_emit; exact I | intros _].
  apply only_seq; [apply only_lift | intros depth].
  destruct (imread fs leftname) as [image |]; [| constructor].
  repeat (apply only_seq; [apply only_emit; exact I | intros _]).
  apply only_sleep. exact I.
Qed.

(** Whenever 3D playback ends otherwise than by returning, its window has
    not been destroyed. *)
Lemma view3d_error_exit_keeps_window fs args :
  outcome (view3d fs args) <> Done tt ->
  only not_a_release (view3d fs args).
Proof.
  unfold view3d. set (loop := for_each _ _). intros Hnot.
  assert (Hloop : only not_a_release loop)
    by (apply only_for_each; intros p; apply show_cloud_only).
  apply only_seq; [apply only_emit; exact I | intros _].
  apply only_seq_stuck; [exact Hloop |].
  intros [] Hdone. apply Hnot.
  rewrite outcome_seq_emit.
  destruct loop as [t e]. simpl in Hdone. subst e. reflexivity.
Qed.

End CaptureClaims.

(** * Further properties of the two modules *)

(** ** The finite range *)

Section FiniteRange.

Import DepthView Observations.

Lemma SFleb_rank x y :
  isfinite x = true -> isfinite y = true ->
  (SFleb x y = true <-> rank_le (rank x) (rank y)).
Proof.
  destruct x as [sx | sx | | sx mx ex], y as [sy | sy | | sy my ey];
    try discriminate; intros _ _; unfold SFleb, SFcompare, rank, rank_le.
  - split; [intros _; lia | reflexivity].
  - destruct sy; split; try discriminate; try reflexivity; lia.
  - destruct sx; split; try discriminate; try reflexivity; lia.
  - change (Pos.compare_cont Eq mx my) with (Pos.compare mx my).
    destruct sx, sy;
      destruct (Z.compare_spec ex ey); destruct (Pos.compare_spec mx my);
      simpl; split; try discriminate; try reflexivity; lia.
Qed.

Lemma rank_le_trans a b c : rank_le a b -> rank_le b c -> rank_le a c.
Proof.
  destruct a as [[a1 a2] a3], b as [[b1 b2] b3], c as [[c1 c2] c3].
  unfold rank_le. lia.
Qed.

Lemma rank_le_total a b : rank_le a b \/ rank_le b a.
Proof.
  destruct a as [[a1 a2] a3], b as [[b1 b2] b3]. unfold rank_le. lia.
Qed.

Lemma SFleb_trans_finite x y z :
  isfinite x = true -> isfinite y = true -> isfinite z = true ->
  SFleb x y = true -> SFleb y z = true -> SFleb x z = true.
Proof.
  intros Hx Hy Hz Hxy Hyz.
  apply SFleb_rank in Hxy, Hyz; try assumption.
  apply SFleb_rank; try assumption. eapply rank_le_trans; eassumption.
Qed.

Lemma SFleb_total_finite x y :
  isfinite x = true -> isfinite y = true ->
  SFleb x y = true \/ SFleb y x = true.
Proof.
  intros Hx Hy. destruct (rank_le_total (rank x) (rank y)) as [H | H];
    [left | right]; apply SFleb_rank; assumption.
Qed.

Lemma SFleb_refl_finite x : isfinite x = true -> SFleb x x = true.
Proof.
  intros Hx. apply SFleb_rank; try assumption.
  destruct (rank x) as [[a b] c]. unfold rank_le. lia.
Qed.

Lemma isnan_finite x : isfinite x = true -> isnan x = false.
Proof. destruct x; try discriminate; reflexivity. Qed.

(** Folding [fmin] over finite floats yields a finite float below the
    start and below every element. *)
Lemma fold_fmin_lower t : forall acc,
  isfinite acc = true -> Forall (fun x => isfinite x = true) t ->
  isfinite (fold_left fmin t acc) = true /\
  SFleb (fold_left fmin t acc) acc = true /\
  Forall (fun x => SFleb (fold_left fmin t acc) x = true) t.
Proof.
  induction t as [| y t IH]; intros acc Hacc Hall; simpl.
  - split; [assumption |]. split; [apply SFleb_refl_finite; assumption |].
    constructor.
  - inversion Hall as [| ? ? Hy Ht]; subst.
    assert (Hm : isfinite (fmin acc y) = true /\
                 SFleb (fmin acc y) acc = true /\ SFleb (fmin acc y) y = true).
    { unfold fmin. rewrite (isnan_finite y Hy), orb_false_r.
      destruct (SFleb acc y) eqn:E.
      - auto using SFleb_refl_finite.
      - destruct (SFleb_total_finite acc y Hacc Hy) as [H | H];
          [congruence | auto using SFleb_refl_finite]. }
    destruct Hm as (Fm & Lma & Lmy).
    destruct (IH (fmin acc y) Fm Ht) as (Fr & Lr & Lt).
    split; [assumption |].
    split; [apply (SFleb_trans_finite _ (fmin acc y) _); assumption |].
    constructor; [apply (SFleb_trans_finite _ (fmin acc y) _); assumption
                 | assumption].
Qed.

Lemma fold_fmax_upper t : forall acc,
  isfinite acc = true -> Forall (fun x => isfinite x = true) t ->
  isfinite (fold_left fmax t acc) = true /\
  SFleb acc (fold_left fmax t acc) = true /\
  Forall (fun x => SFleb x (fold_left fmax t acc) = true) t.
Proof.
  induction t as [| y t IH]; intros acc Hacc Hall; simpl.
  - split; [assumption |]. split; [apply SFleb_refl_finite; assumption |].
    constructor.
  - inversion Hall as [| ? ? Hy Ht]; subst.
    assert (Hm : isfinite (fmax acc y) = true /\
                 SFleb acc (fmax acc y) = true /\ SFleb y (fmax acc y) = true).
    { unfold fmax. rewrite (isnan_finite y Hy), orb_false_r.
      destruct (SFleb y acc) eqn:E.
      - auto using SFleb_refl_finite.
      - destruct (SFleb_total_finite acc y Hacc Hy) as [H | H];
          [auto using SFleb_refl_finite | congruence]. }
    destruct Hm as (Fm & Lma & Lmy).
    destruct (IH (fmax acc y) Fm Ht) as (Fr & Lr & Lt).
    split; [assumption |].
    split; [apply (SFleb_trans_finite _ (fmax acc y) _); assumption |].
    constructor; [apply (SFleb_trans_finite _ (fmax acc y) _); assumption
                 | assumption].
Qed.

Lemma finite_entries_finite a :
  Forall (fun x => isfinite x = true) (finite_entries a).
Proof.
  apply Forall_forall. intros x Hx. apply finite_entries_spec in Hx. tauto.
Qed.

(** X1: [finitemin] and [finitemax] of a frame with a finite entry are
    finite entries of the frame, and every finite entry lies between them;
    NaN and infinite entries play no part. *)
Theorem finite_range_bounds (a : depth_array) :
  existsb isfinite (data (px a)) = true ->
  exists vmin vmax,
    finitemin a = Ok vmin /\ finitemax a = Ok vmax /\
    In vmin (data (px a)) /\ isfinite vmin = true /\
    In vmax (data (px a)) /\ isfinite vmax = true /\
    forall x, In x (data (px a)) -> isfinite x = true ->
      SFleb vmin x = true /\ SFleb x vmax = true.
Proof.
  intros H. destruct (finite_range_defined a H) as (vmin & vmax & Hmin & Hmax).
  exists vmin, vmax.
  pose proof (finitemin_member _ _ Hmin) as Imin.
  pose proof (finitemax_member _ _ Hmax) as Imax.
  apply finite_entries_spec in Imin as [Imin Fmin].
  apply finite_entries_spec in Imax as [Imax Fmax].
  repeat (split; [assumption |]).
  intros x Hx Fx.
  assert (Hin : In x (finite_entries a)) by (apply finite_entries_spec; auto).
  pose proof (finite_entries_finite a) as Hall.
  unfold finitemin, finitemax, nanmin, nanmax, reduce in Hmin, Hmax.
  destruct (finite_entries a) as [| y t]; [destruct Hin |].
  injection Hmin as <-. injection Hmax as <-.
  inversion Hall as [| ? ? Hy Ht]; subst.
  destruct (fold_fmin_lower t y Hy Ht) as (_ & Lmin & Amin).
  destruct (fold_fmax_upper t y Hy Ht) as (_ & Lmax & Amax).
  rewrite Forall_forall in Amin, Amax.
  destruct Hin as [<- | Hin]; auto.
Qed.

Lemma finite_range_bounds_witness :
  exists vmin vmax,
    finitemin Scenarios.ramp_frame = Ok vmin /\
    finitemax Scenarios.ramp_frame = Ok vmax /\
    In vmin (data (px Scenarios.ramp_frame)) /\ isfinite vmin = true /\
    In vmax (data (px Scenarios.ramp_frame)) /\ isfinite vmax = true /\
    forall x, In x (data (px Scenarios.ramp_frame)) -> isfinite x = true ->
      SFleb vmin x = true /\ SFleb x vmax = true.
Proof.
  apply (finite_range_bounds Scenarios.ramp_frame). reflexivity.
Defined.

End FiniteRange.

(** ** Normalisation and colouring *)

Section Colouring.

Import DepthView Observations.

Lemma scaled_nonfinite d vmin vmax x :
  isfinite vmin = true -> isfinite x = false ->
  isfinite (scaled d (NpFloat vmin) (NpFloat vmax) x) = false.
Proof.
  intros Hmin Hx. unfold scaled. cbn [in_dtype scalar_sub].
  destruct x as [| sx | |]; try discriminate;
    destruct vmin as [smin | | | smin mmin emin]; try discriminate;
    destruct (fsub d vmax (_ : spec_float)) as [sD | sD | | sD mD eD];
    destruct d; reflexivity.
Qed.

(** X2: with the default bounds, a pixel that is NaN or infinite scales to
    NaN or an infinity, never to a number: the byte stored for it is the
    one the platform's conversion produces, whatever the frame. *)
Theorem nonfinite_pixels_left_to_platform (wild : spec_float -> Z)
    (a : depth_array) :
  existsb isfinite (data (px a)) = true ->
  exists vmin vmax out,
    finitemin a = Ok vmin /\ finitemax a = Ok vmax /\
    normalize_image wild a None None = Ok out /\
    forall i x, nth_error (data (px a)) i = Some x -> isfinite x = false ->
      isfinite (scaled (dt a) (NpFloat vmin) (NpFloat vmax) x) = false /\
      nth_error (data out) i =
        Some (wild (scaled (dt a) (NpFloat vmin) (NpFloat vmax) x) mod 256).
Proof.
  intros H. destruct (finite_range_defined a H) as (vmin & vmax & Hmin & Hmax).
  exists vmin, vmax,
    (amap (fun x => astype_uint8 wild
                      (scaled (dt a) (NpFloat vmin) (NpFloat vmax) x)) (px a)).
  split; [exact Hmin |]. split; [exact Hmax |].
  split; [apply normalize_image_defaults; assumption |].
  intros i x Hx Fx.
  assert (Fmin : isfinite vmin = true).
  { apply finitemin_member, finite_entries_spec in Hmin. tauto. }
  pose proof (scaled_nonfinite (dt a) vmin vmax x Fmin Fx) as Hs.
  split; [exact Hs |].
  rewrite (nth_error_amap _ _ _ _ Hx). f_equal.
  apply astype_nonfinite, Hs.
Qed.

Lemma nonfinite_pixels_left_to_platform_witness :
  exists vmin vmax out,
    finitemin Scenarios.ramp_frame = Ok vmin /\
    finitemax Scenarios.ramp_frame = Ok vmax /\
    normalize_image wild_x86_64 Scenarios.ramp_frame None None = Ok out /\
    forall i x, nth_error (data (px Scenarios.ramp_frame)) i = Some x ->
      isfinite x = false ->
      isfinite (scaled (dt Scenarios.ramp_frame) (NpFloat vmin) (NpFloat vmax) x)
        = false /\
      nth_error (data out) i =
        Some (wild_x86_64
                (scaled (dt Scenarios.ramp_frame) (NpFloat vmin) (NpFloat vmax) x)
              mod 256).
Proof.
  apply (nonfinite_pixels_left_to_platform wild_x86_64 Scenarios.ramp_frame).
  reflexivity.
Defined.

Lemma no_finite_entry a :
  existsb isfinite (data (px a)) = false ->
  forallb (fun x => negb (isfinite x)) (data (px a)) = true.
Proof.
  induction (data (px a)) as [| x t IH]; simpl; [reflexivity |].
  destruct (isfinite x); simpl; [discriminate | exact IH].
Qed.

Lemma normalize_image_supplied wild a hi lo :
  normalize_image wild a (Some hi) (Some lo) =
  Ok (amap (fun x => astype_uint8 wild (scaled (dt a) (PyFloat lo) (PyFloat hi) x))
           (px a)).
Proof. reflexivity. Qed.

Lemma normalize_image_shape wild depth hi lo g :
  normalize_image wild depth hi lo = Ok g -> shape g = shape (px depth).
Proof.
  unfold normalize_image.
  destruct (default_to (finitemin depth) lo); [| discriminate].
  destruct (default_to (finitemax depth) hi); [| discriminate].
  simpl. intros [= <-]. reflexivity.
Qed.

Lemma normalize_image_length wild depth hi lo g :
  normalize_image wild depth hi lo = Ok g ->
  List.length (data g) = List.length (data (px depth)).
Proof.
  unfold normalize_image.
  destruct (default_to (finitemin depth) lo); [| discriminate].
  destruct (default_to (finitemax depth) hi); [| discriminate].
  simpl. intros [= <-]. apply length_map.
Qed.

Lemma chunks_1 {A} (l : list A) k :
  List.length l = k -> chunks 1 k l = map (fun v => [v]) l.
Proof.
  revert l. induction k as [| k IH]; intros [| x t]; simpl;
    try discriminate; [reflexivity |].
  intros [= Hk]. rewrite (IH t Hk). reflexivity.
Qed.

Lemma flat_map_map {A B C} (f : B -> list C) (g : A -> B) l :
  flat_map f (map g l) = flat_map (fun x => f (g x)) l.
Proof. induction l as [| x t IH]; simpl; congruence. Qed.

(** A matrix of at least one row and one column is an image of one
    channel: the palette is applied to every entry. *)
Lemma applyColorMap_matrix lut g c H W :
  shape g = [H; W] -> (1 <= H)%nat -> (1 <= W)%nat ->
  applyColorMap lut g c =
    Ok (Some (mk_ndarray [H; W; 3%nat] (flat_map (lut c) (data g)))).
Proof.
  intros Hs HH HW. unfold applyColorMap. rewrite Hs. cbn [as_image Nat.eqb].
  replace (H * W =? 0)%nat with false by (symmetry; apply Nat.eqb_neq; nia).
  reflexivity.
Qed.

Lemma merge3_matrix g H W :
  shape g = [H; W] -> (1 <= H)%nat -> (1 <= W)%nat ->
  List.length (data g) = (H * W)%nat ->
  merge3 g =
    Ok (mk_ndarray [H; W; 3%nat] (flat_map (fun v => [v; v; v]) (data g))).
Proof.
  intros Hs HH HW Hlen. unfold merge3. rewrite Hs.
  replace (size_of [H; W] =? 0)%nat with false
    by (symmetry; apply Nat.eqb_neq; unfold size_of; simpl; nia).
  change ((CV_MAX_DIM <=? List.length [H; W])%nat) with false.
  cbn [orb as_image].
  change ((3 * 1 <=? CV_CN_MAX)%nat) with true. cbv iota.
  rewrite (chunks_1 (data g) (H * W)%nat Hlen), flat_map_map.
  reflexivity.
Qed.

(** X3: in 2D playback, colouring a frame of at least one row and one
    column (a matrix holding its [H * W] values) raises only with the gray
    flag on a frame without a finite value ([ValueError]); in every other
    case it returns an image of as many rows and columns and three
    channels. The jet, inferno and default palettes use the command line's
    bounds and so accept every such frame. *)
Theorem colored_raises_only_gray_without_finite (wild : spec_float -> Z)
    (lut : colormap -> Z -> list Z) (args : viewer_args) (depth : depth_array)
    (H W : nat) :
  shape (px depth) = [H; W] -> (1 <= H)%nat -> (1 <= W)%nat ->
  List.length (data (px depth)) = (H * W)%nat ->
  if gray args && negb (existsb isfinite (data (px depth)))
  then colored wild lut args depth = Raise "ValueError"
  else exists img, colored wild lut args depth = Ok (Some img) /\
                   shape img = [H; W; 3%nat].
Proof.
  intros Hs HH HW Hlen. unfold colored.
  destruct (gray args); simpl.
  - destruct (existsb isfinite (data (px depth))) eqn:E; simpl.
    + destruct (finite_range_defined depth E) as (vmin & vmax & Hmin & Hmax).
      unfold depth_as_gray.
      pose proof (normalize_image_defaults wild depth vmin vmax Hmin Hmax) as Hn.
      rewrite Hn. cbn [bind].
      erewrite merge3_matrix;
        [ | exact Hs | exact HH | exact HW
          | rewrite (normalize_image_length _ _ _ _ _ Hn); exact Hlen ].
      eexists. split; reflexivity.
    + pose proof (no_finite_entries depth (no_finite_entry depth E)) as E'.
      unfold depth_as_gray, normalize_image, default_to, finitemin, nanmin.
      rewrite E'. reflexivity.
  - unfold depth_as_colorimage. rewrite normalize_image_supplied. cbn [bind].
    destruct (jet args); [| destruct (inferno args)];
      (erewrite applyColorMap_matrix; [| exact Hs | exact HH | exact HW]);
      eexists; split; reflexivity.
Qed.

Lemma colored_raises_only_gray_without_finite_witness :
  if gray Scenarios.default_viewer_args
     && negb (existsb isfinite (data (px Scenarios.small_depth)))
  then colored wild_x86_64 Scenarios.grey_lut Scenarios.default_viewer_args
         Scenarios.small_depth = Raise "ValueError"
  else exists img,
         colored wild_x86_64 Scenarios.grey_lut Scenarios.default_viewer_args
           Scenarios.small_depth = Ok (Some img) /\
         shape img = [1; 2; 3]%nat.
Proof.
  apply (colored_raises_only_gray_without_finite wild_x86_64 Scenarios.grey_lut
           Scenarios.default_viewer_args Scenarios.small_depth 1 2);
    [reflexivity | lia | lia | reflexivity].
Defined.

Lemma nth_error_flat_map_block {A B} (f : A -> list B) (n : nat) l :
  (forall x, List.length (f x) = n) ->
  forall i x k, nth_error l i = Some x -> (k < n)%nat ->
    nth_error (flat_map f l) (n * i + k) = nth_error (f x) k.
Proof.
  intros Hlen. induction l as [| y t IH]; intros i x k Hi Hk.
  - destruct i; discriminate.
  - destruct i as [| i]; simpl in Hi.
    + injection Hi as ->. simpl flat_map.
      rewrite Nat.mul_0_r, Nat.add_0_l.
      apply nth_error_app1. rewrite Hlen. exact Hk.
    + simpl flat_map. rewrite nth_error_app2 by (rewrite Hlen; lia).
      rewrite Hlen.
      replace (n * S i + k - n)%nat with (n * i + k)%nat by lia.
      apply IH; assumption.
Qed.

(** X4: for a frame of at least one row and one column, whenever
    [normalize_image] returns, so do [depth_as_gray] and
    [depth_as_colorimage], with an image of as many rows and columns and
    three channels; pixel [i] of the gray image holds the normalised value
    three times, and pixel [i] of the colour image holds the palette's
    entry for that value. *)
Theorem colour_images_follow_normalize (wild : spec_float -> Z)
    (lut : colormap -> Z -> list Z) (depth : depth_array)
    (vmin vmax : option spec_float) (c : colormap) (g : ndarray Z)
    (H W : nat) :
  shape (px depth) = [H; W] -> (1 <= H)%nat -> (1 <= W)%nat ->
  List.length (data (px depth)) = (H * W)%nat ->
  normalize_image wild depth vmax vmin = Ok g ->
  (forall v, List.length (lut c v) = 3%nat) ->
  exists gr col,
    depth_as_gray wild depth vmin vmax = Ok gr /\
    depth_as_colorimage wild lut depth vmin vmax c = Ok (Some col) /\
    shape gr = [H; W; 3%nat] /\
    shape col = [H; W; 3%nat] /\
    forall i v k, nth_error (data g) i = Some v -> (k < 3)%nat ->
      nth_error (data gr) (3 * i + k) = Some v /\
      nth_error (data col) (3 * i + k) = nth_error (lut c v) k.
Proof.
  intros Hs HH HW Hlen Hg Hlut.
  pose proof (normalize_image_shape _ _ _ _ _ Hg) as Hshape.
  pose proof (normalize_image_length _ _ _ _ _ Hg) as Hglen.
  rewrite Hs in Hshape. rewrite Hlen in Hglen.
  exists (mk_ndarray [H; W; 3%nat] (flat_map (fun v => [v; v; v]) (data g))),
         (mk_ndarray [H; W; 3%nat] (flat_map (lut c) (data g))).
  unfold depth_as_gray, depth_as_colorimage. rewrite Hg. cbn [bind].
  split; [apply merge3_matrix; assumption |].
  split; [apply applyColorMap_matrix; assumption |].
  split; [reflexivity |]. split; [reflexivity |].
  intros i v k Hi Hk. cbn [data]. split.
  - rewrite (nth_error_flat_map_block (fun v => [v; v; v]) 3 (data g)
               (fun _ => eq_refl) i v k Hi Hk).
    destruct k as [| [| [| k]]]; try reflexivity. lia.
  - apply nth_error_flat_map_block; assumption.
Qed.

Lemma colour_images_follow_normalize_witness :
  exists gr col,
    depth_as_gray wild_x86_64 Scenarios.small_depth None None = Ok gr /\
    depth_as_colorimage wild_x86_64 Scenarios.grey_lut Scenarios.small_depth
      None None COLORMAP_JET = Ok (Some col) /\
    shape gr = [1; 2; 3]%nat /\
    shape col = [1; 2; 3]%nat /\
    forall i v k,
      nth_error (data (mk_ndarray [1; 2]%nat [0; 255])) i = Some v ->
      (k < 3)%nat ->
      nth_error (data gr) (3 * i + k) = Some v /\
      nth_error (data col) (3 * i + k) =
        nth_error (Scenarios.grey_lut COLORMAP_JET v) k.
Proof.
  apply (colour_images_follow_normalize wild_x86_64 Scenarios.grey_lut
           Scenarios.small_depth None None COLORMAP_JET
           (mk_ndarray [1; 2]%nat [0; 255]) 1 2);
    [reflexivity | lia | lia | reflexivity | reflexivity | reflexivity].
Defined.

End Colouring.

(** ** [resize_image] and [as_matrix] *)

Section Reshaping.

Import DepthView Observations.

Lemma binary_round_aux_sign p em s m e l :
  has_sign s (binary_round_aux p em s m e l).
Proof.
  unfold binary_round_aux.
  destruct (shr_fexp p em m e l) as [mrs' e'].
  destruct (shr_fexp p em _ e' loc_Exact) as [mrs'' e''].
  destruct (shr_m mrs''); simpl; auto.
  destruct (e'' <=? em - p); reflexivity.
Qed.

Lemma of_Z_nonneg d n : 0 <= n -> has_sign false (of_Z d n).
Proof.
  intros Hn. unfold of_Z, binary_normalize.
  destruct n as [| p | p]; [reflexivity | | lia].
  unfold binary_round. destruct (shl_align p 0 _) as [mz ez].
  apply binary_round_aux_sign.
Qed.

Lemma py_int_negative x w : has_sign true x -> py_int x = Ok w -> w <= 0.
Proof.
  destruct x as [s | s | | s m e]; simpl; try discriminate.
  - intros _ [= <-]. lia.
  - intros -> [= <-]. simpl.
    pose proof (Z.shiftl_nonneg (Z.pos m) e). lia.
Qed.

(** A dimension that scales to at least 1 was scaled by a positive finite
    rate. *)
Lemma scaled_dim_positive_rate n rate w :
  scaled_dim n rate = Ok w -> 1 <= w ->
  exists m e, rate = S754_finite false m e.
Proof.
  unfold scaled_dim, int_times_float, py_float_of_int.
  pose proof (of_Z_nonneg float64 (Z.of_nat n) (Nat2Z.is_nonneg n)) as Hs.
  destruct (of_Z float64 (Z.of_nat n)) as [sx | sx | | sx mx ex];
    simpl in Hs |- *; try discriminate; subst sx.
  - destruct rate as [sr | sr | | sr mr er]; simpl; try discriminate;
      intros [= <-]; lia.
  - destruct rate as [sr | sr | | sr mr er]; try discriminate.
    + simpl. intros [= <-]; lia.
    + destruct sr; [| eauto]. intros Hw Hpos. exfalso.
      cbn [bind] in Hw.
      apply py_int_negative in Hw; [lia |].
      unfold fmul, SFmul. apply binary_round_aux_sign.
Qed.

(** X5: for an image of [H] rows, [W] columns and at most 512 channels,
    [resize_image] returns only if the image has at least one row and one
    column and the rate is positive and finite, with [int(W * rate)] and
    [int(H * rate)] at least 1 and within a C [int]; the result then has
    that many columns and rows and the source's channels, a channel axis of
    length 1 being dropped. A rate that is zero, negative, NaN or infinite
    never yields an image. *)
Theorem resize_image_returns_only
    (resample : ndarray Z -> Z -> Z -> result (list Z))
    (image out : ndarray Z) (rate : spec_float) (H W : nat) (rest : list nat) :
  shape image = H :: W :: rest ->
  (rest = [] \/ exists c, rest = [c] /\ (1 <= c <= 512)%nat) ->
  resize_image resample image rate = Ok out ->
  (1 <= H)%nat /\ (1 <= W)%nat /\
  exists w h m e,
    rate = S754_finite false m e /\
    scaled_dim W rate = Ok w /\ scaled_dim H rate = Ok h /\
    1 <= w <= 2 ^ 31 - 1 /\ 1 <= h <= 2 ^ 31 - 1 /\
    resample image w h = Ok (data out) /\
    shape out = Z.to_nat h :: Z.to_nat w ::
                  match rest with [1%nat] => [] | _ => rest end.
Proof.
  intros Hs Hrest. unfold resize_image. rewrite Hs.
  destruct (scaled_dim W rate) as [w |] eqn:Ew; [| discriminate].
  destruct (scaled_dim H rate) as [h |] eqn:Eh; [| discriminate].
  cbn [bind]. intros Hout.
  assert (Hdims : 1 <= w <= 2 ^ 31 - 1 /\ 1 <= h <= 2 ^ 31 - 1).
  { revert Hout. unfold Cv2.resize, INT_MAX.
    destruct ((w <=? 0) || (h <=? 0) || (2 ^ 31 - 1 <? w) || (2 ^ 31 - 1 <? h))
      eqn:E; [discriminate |]. intros _.
    apply orb_false_iff in E as [E Eh1]. apply orb_false_iff in E as [E Ew1].
    apply orb_false_iff in E as [Ew0 Eh0].
    apply Z.leb_gt in Ew0, Eh0. apply Z.ltb_ge in Ew1, Eh1. lia. }
  destruct Hdims as [Hw Hh].
  assert (HW : (1 <= W)%nat).
  { destruct W; [apply scaled_dim_zero in Ew; lia | lia]. }
  assert (HH : (1 <= H)%nat).
  { destruct H; [apply scaled_dim_zero in Eh; lia | lia]. }
  destruct (scaled_dim_positive_rate W rate w Ew ltac:(lia)) as (m & e & ->).
  rewrite (resize_accepted resample image H W rest w h Hs Hrest HH HW Hw Hh)
    in Hout.
  destruct (resample image w h) as [pixels |] eqn:Epx; [| discriminate].
  cbn [bind] in Hout. injection Hout as <-.
  split; [exact HH |]. split; [exact HW |].
  exists w, h, m, e. cbn [shape data].
  repeat (split; [first [reflexivity | assumption | lia] |]).
  reflexivity.
Qed.

Lemma resize_image_returns_only_witness :
  (1 <= 100)%nat /\ (1 <= 200)%nat /\
  exists w h m e,
    Scenarios.half = S754_finite false m e /\
    scaled_dim 200 Scenarios.half = Ok w /\
    scaled_dim 100 Scenarios.half = Ok h /\
    1 <= w <= 2 ^ 31 - 1 /\ 1 <= h <= 2 ^ 31 - 1 /\
    Scenarios.zero_fill Scenarios.image_100x200 w h =
      Ok (data (mk_ndarray [50; 100; 3]%nat (repeat 0 (Z.to_nat (100 * 50))))) /\
    shape (mk_ndarray [50; 100; 3]%nat (repeat 0 (Z.to_nat (100 * 50))))
      = [Z.to_nat h; Z.to_nat w; 3%nat].
Proof.
  apply (resize_image_returns_only Scenarios.zero_fill Scenarios.image_100x200
           (mk_ndarray [50; 100; 3]%nat (repeat 0 (Z.to_nat (100 * 50))))
           Scenarios.half 100 200 [3%nat]).
  - reflexivity.
  - right. exists 3%nat. split; [reflexivity | lia].
  - reflexivity.
Defined.

Lemma size_of_app a b : size_of (a ++ b) = (size_of a * size_of b)%nat.
Proof.
  unfold size_of. induction a as [| x a IH]; simpl; [lia |].
  rewrite IH. lia.
Qed.

(** X6: [as_matrix] keeps the last two dimensions and the data when the
    leading dimensions hold a single matrix (their product is 1, or the
    matrix is empty), and raises [ValueError] when they hold several. *)
Theorem as_matrix_keeps_single_matrix {A} (a : ndarray A) (lead : list nat)
    (H W : nat) :
  shape a = lead ++ [H; W] ->
  as_matrix a =
    if (size_of lead =? 1)%nat || (H * W =? 0)%nat
    then Ok (mk_ndarray [H; W] (data a))
    else Raise "ValueError".
Proof.
  intros Hs. unfold as_matrix. rewrite Hs, rev_app_distr. cbn [rev app].
  rewrite size_of_app.
  replace (size_of [H; W]) with (H * W)%nat by (unfold size_of; simpl; lia).
  destruct (size_of lead =? 1)%nat eqn:E1; simpl.
  - apply Nat.eqb_eq in E1. rewrite E1, Nat.mul_1_l, Nat.eqb_refl. reflexivity.
  - apply Nat.eqb_neq in E1.
    destruct (H * W =? 0)%nat eqn:E0.
    + apply Nat.eqb_eq in E0. rewrite E0, Nat.mul_0_r. reflexivity.
    + apply Nat.eqb_neq in E0.
      replace (size_of lead * (H * W) =? H * W)%nat with false; [reflexivity |].
      symmetry. apply Nat.eqb_neq. nia.
Qed.

Lemma as_matrix_keeps_single_matrix_witness :
  as_matrix (mk_ndarray [1; 1; 2; 3]%nat [1; 2; 3; 4; 5; 6]) =
    if (size_of [1; 1]%nat =? 1)%nat || (2 * 3 =? 0)%nat
    then Ok (mk_ndarray [2; 3]%nat [1; 2; 3; 4; 5; 6])
    else Raise "ValueError".
Proof.
  apply (as_matrix_keeps_single_matrix
           (mk_ndarray [1; 1; 2; 3]%nat [1; 2; 3; 4; 5; 6]) [1; 1]%nat 2 3).
  reflexivity.
Defined.

End Reshaping.

(** ** Playback loops *)

Section PlaybackLoops.

Import DepthView Observations Scenarios.

(** A loop stops at the first pass that does not return: the passes before
    it are complete, the ones after it are not started. *)
Lemma for_each_stops {A} (body : A -> io unit) before p after :
  Forall (fun x => outcome (body x) = Done tt) before ->
  outcome (body p) <> Done tt ->
  for_each body (before ++ p :: after) =
    (flat_map (fun x => trace (body x)) before ++ trace (body p),
     outcome (body p)).
Proof.
  intros Hb Hp. induction Hb as [| x t Hx Ht IH]; simpl.
  - destruct (body p) as [tp [[] | c | n |]]; simpl in *;
      try reflexivity. congruence.
  - destruct (body x) as [tx ex] eqn:E. simpl in Hx. subst ex.
    rewrite (seq_done _ _ tx tt eq_refl), IH. simpl.
    rewrite app_assoc. reflexivity.
Qed.

Lemma shape_eqb_eq a b : shape_eqb a b = true -> a = b.
Proof.
  revert b. induction a as [| x a IH]; intros [| y b]; simpl;
    try discriminate; [reflexivity |].
  intros H. apply andb_true_iff in H as [Hxy Hab].
  apply Nat.eqb_eq in Hxy. f_equal; auto.
Qed.

(** What is coloured from a matrix has its rows and columns, and three
    channels. *)
Lemma colored_shape wild lut args depth img H W :
  colored wild lut args depth = Ok (Some img) ->
  shape (px depth) = [H; W] ->
  shape img = [H; W; 3%nat].
Proof.
  intros Hc Hs.
  assert (G : forall hi lo c,
            depth_as_colorimage wild lut depth lo hi c = Ok (Some img) ->
            shape img = [H; W; 3%nat]).
  { intros hi lo c. unfold depth_as_colorimage.
    destruct (normalize_image wild depth hi lo) as [g |] eqn:E; [| discriminate].
    cbn [bind]. unfold applyColorMap.
    rewrite (normalize_image_shape _ _ _ _ _ E), Hs. cbn [as_image Nat.eqb].
    destruct (H * W =? 0)%nat; [discriminate |].
    intros [= <-]. reflexivity. }
  revert Hc. unfold colored.
  destruct (gray args); [| destruct (jet args); [| destruct (inferno args)]];
    try apply G.
  unfold depth_as_gray, fmap.
  destruct (normalize_image wild depth None None) as [g |] eqn:E; [| discriminate].
  cbn [bind]. unfold merge3.
  rewrite (normalize_image_shape _ _ _ _ _ E), Hs.
  destruct ((size_of [H; W] =? 0)%nat || _); [discriminate |].
  cbn [as_image].
  change ((3 * 1 <=? CV_CN_MAX)%nat) with true. cbv iota. cbn [bind].
  intros [= <-]. reflexivity.
Qed.

(** X8: a pass of 2D playback returns only if the depth file was loaded,
    the left image was read, the depth was coloured to an image and the
    left image has that image's shape (for a depth frame of [H] rows and [W]
    columns: [H] rows, [W] columns and three channels); it then shows
    exactly one picture, the left image and the coloured depth side by
    side, and waits [sec] seconds. A missing image, a shape mismatch or a
    negative wait makes it raise. *)
Theorem show_pair_returns_only (wild : spec_float -> Z)
    (lut : colormap -> Z -> list Z) (fs : files) (args : viewer_args)
    (leftname depth_name : path) :
  outcome (show_pair wild lut fs args (leftname, depth_name)) = Done tt ->
  exists depth image cd results,
    np_load fs depth_name = Ok depth /\
    imread fs leftname = Some image /\
    colored wild lut args depth = Ok (Some cd) /\
    shape image = shape cd /\
    (forall H W, shape (px depth) = [H; W] -> shape image = [H; W; 3%nat]) /\
    concatenate_axis1 image cd = Ok results /\
    0 <= sec args /\
    trace (show_pair wild lut fs args (leftname, depth_name)) =
      [Stdout (Text (path_str leftname ++ " " ++ path_str depth_name));
       Imshow "left depth" results; WaitKey 10; Sleep (sec args)].
Proof.
  unfold show_pair, seq, lift, emit, assert, sleep, ret.
  destruct (np_load fs depth_name) as [depth |] eqn:El; [| discriminate].
  destruct (colored wild lut args depth) as [[cd |] |] eqn:Ec;
    [| destruct (imread fs leftname); discriminate | discriminate].
  destruct (imread fs leftname) as [image |] eqn:Ei; [| discriminate].
  destruct (shape_eqb (shape image) (shape cd)) eqn:Es; [| discriminate].
  destruct (concatenate_axis1 image cd) as [results |] eqn:Er; [| discriminate].
  destruct (sec args <? 0) eqn:Et; [discriminate |].
  intros _. exists depth, image, cd, results.
  apply shape_eqb_eq in Es. apply Z.ltb_ge in Et.
  split; [reflexivity |]. split; [reflexivity |]. split; [exact Ec |].
  split; [exact Es |].
  split; [intros H W Hs; rewrite Es; exact (colored_shape _ _ _ _ _ _ _ Ec Hs) |].
  split; [exact Er |]. split; [exact Et |].
  reflexivity.
Qed.

Lemma show_pair_returns_only_witness :
  let fs := session three_left three_right two_depth in
  let leftname := in_dir "left" "left_00000.png" in
  let depth_name := in_dir "zed-depth" "zeddepth_00000.npy" in
  exists depth image cd results,
    np_load fs depth_name = Ok depth /\
    imread fs leftname = Some image /\
    colored wild_x86_64 grey_lut default_viewer_args depth = Ok (Some cd) /\
    shape image = shape cd /\
    (forall H W, shape (px depth) = [H; W] -> shape image = [H; W; 3%nat]) /\
    concatenate_axis1 image cd = Ok results /\
    0 <= sec default_viewer_args /\
    trace (show_pair wild_x86_64 grey_lut fs default_viewer_args
             (leftname, depth_name)) =
      [Stdout (Text (path_str leftname ++ " " ++ path_str depth_name));
       Imshow "left depth" results; WaitKey 10; Sleep (sec default_viewer_args)].
Proof.
  apply (show_pair_returns_only wild_x86_64 grey_lut
           (session three_left three_right two_depth) default_viewer_args
           (in_dir "left" "left_00000.png")
           (in_dir "zed-depth" "zeddepth_00000.npy")).
  reflexivity.
Defined.

(** A pass that raises with a non-negative wait has shown nothing. *)
Lemma show_pair_raised_shows_nothing wild lut fs args p cls :
  0 <= sec args ->
  outcome (show_pair wild lut fs args p) = Raised cls ->
  passes (trace (show_pair wild lut fs args p)) = 0%nat.
Proof.
  intros Hsec. destruct p as [leftname depth_name].
  unfold show_pair, seq, lift, emit, assert, sleep, ret.
  destruct (np_load fs depth_name) as [depth |]; [| reflexivity].
  destruct (colored wild lut args depth) as [[cd |] |];
    [| destruct (imread fs leftname); reflexivity | reflexivity].
  destruct (imread fs leftname) as [image |]; [| reflexivity].
  destruct (shape_eqb (shape image) (shape cd)); [| reflexivity].
  destruct (concatenate_axis1 image cd) as [results |]; [| reflexivity].
  destruct (sec args <? 0) eqn:Et; [apply Z.ltb_lt in Et; lia | discriminate].
Qed.

(** X7: 2D playback stops at the first pair whose pass raises: the pairs
    before it have been shown, the exception escapes, and the pairs after
    it are neither loaded nor shown. *)
Theorem view_by_colormap_stops_at_first_failure (wild : spec_float -> Z)
    (lut : colormap -> Z -> list Z) (fs : files) (args : viewer_args)
    (before after : list (path * path)) (p : path * path) (cls : string) :
  combine (sorted (glob fs (path_div (captured_dir args) "left") "**/*.png"))
          (sorted (glob fs (path_div (captured_dir args) "zed-depth") "**/*.npy"))
    = before ++ p :: after ->
  Forall (fun q => outcome (show_pair wild lut fs args q) = Done tt) before ->
  outcome (show_pair wild lut fs args p) = Raised cls ->
  0 <= sec args ->
  view_by_colormap wild lut fs args =
    (flat_map (fun q => trace (show_pair wild lut fs args q)) before
       ++ trace (show_pair wild lut fs args p),
     Raised cls) /\
  passes (trace (view_by_colormap wild lut fs args)) = List.length before.
Proof.
  intros Hpairs Hbefore Hp Hsec.
  assert (E : view_by_colormap wild lut fs args =
    (flat_map (fun q => trace (show_pair wild lut fs args q)) before
       ++ trace (show_pair wild lut fs args p),
     Raised cls)).
  { unfold view_by_colormap. rewrite Hpairs, <- Hp.
    apply for_each_stops; [exact Hbefore | rewrite Hp; discriminate]. }
  split; [exact E |].
  rewrite E. cbn [trace fst]. rewrite passes_app.
  rewrite (show_pair_raised_shows_nothing _ _ _ _ _ cls Hsec Hp), Nat.add_0_r.
  apply passes_flat_map.
  eapply Forall_impl; [| exact Hbefore].
  intros q Hq. apply show_pair_one_pass, Hq.
Qed.

Lemma view_by_colormap_stops_at_first_failure_witness :
  let fs := second_unreadable in
  let args := default_viewer_args in
  let before := [(in_dir "left" "left_00000.png",
                  in_dir "zed-depth" "zeddepth_00000.npy")] in
  let p := (in_dir "left" "left_00001.png",
            in_dir "zed-depth" "zeddepth_00001.npy") in
  view_by_colormap wild_x86_64 grey_lut fs args =
    (flat_map (fun q => trace (show_pair wild_x86_64 grey_lut fs args q)) before
       ++ trace (show_pair wild_x86_64 grey_lut fs args p),
     Raised "OSError") /\
  passes (trace (view_by_colormap wild_x86_64 grey_lut fs args))
    = List.length before.
Proof.
  apply (view_by_colormap_stops_at_first_failure wild_x86_64 grey_lut
           second_unreadable default_viewer_args
           [(in_dir "left" "left_00000.png",
             in_dir "zed-depth" "zeddepth_00000.npy")]
           []
           (in_dir "left" "left_00001.png",
            in_dir "zed-depth" "zeddepth_00001.npy")
           "OSError").
  - reflexivity.
  - repeat constructor.
  - reflexivity.
  - simpl. lia.
Defined.

(** A pass of 3D playback that returns has added one point cloud. *)
Lemma show_cloud_one_geometry fs args p :
  outcome (show_cloud fs args p) = Done tt ->
  geometries (trace (show_cloud fs args p)) = 1%nat.
Proof.
  destruct p as [leftname depth_name].
  unfold show_cloud, seq, lift, emit, sleep, ret.
  destruct (np_load fs depth_name) as [depth |]; [| discriminate].
  destruct (imread fs leftname) as [image |]; [| discriminate].
  destruct (sec args <? 0); [discriminate |].
  reflexivity.
Qed.

Lemma geometries_app t t' :
  geometries (t ++ t') = (geometries t + geometries t')%nat.
Proof. unfold geometries. rewrite filter_app, length_app. reflexivity. Qed.

Lemma geometries_flat_map {A} (f : A -> list event) l :
  Forall (fun x => geometries (f x) = 1%nat) l ->
  geometries (flat_map f l) = List.length l.
Proof.
  induction 1 as [| x t Hx Ht IH]; [reflexivity |].
  simpl. rewrite geometries_app, Hx, IH. reflexivity.
Qed.

(** X9: 3D playback pairs the sorted left images with the sorted depth
    arrays like 2D playback does; when every pass returns it creates its
    window first, adds one point cloud per pair, as many as the shorter
    collection has entries, and destroys the window last. The palette and
    bound flags play no part. *)
Theorem view3d_shows_every_pair (fs : files) (args : viewer_args) :
  let left_images := glob fs (path_div (captured_dir args) "left") "**/*.png" in
  let depth_npys := glob fs (path_div (captured_dir args) "zed-depth") "**/*.npy" in
  let pairs := combine (sorted left_images) (sorted depth_npys) in
  Forall (fun p => outcome (show_cloud fs args p) = Done tt) pairs ->
  view3d fs args =
    (CreateWindow :: flat_map (fun p => trace (show_cloud fs args p)) pairs
       ++ [DestroyWindow], Done tt) /\
  geometries (trace (view3d fs args)) =
    Nat.min (List.length left_images) (List.length depth_npys).
Proof.
  intros left_images depth_npys pairs Hall.
  assert (E : view3d fs args =
    (CreateWindow :: flat_map (fun p => trace (show_cloud fs args p)) pairs
       ++ [DestroyWindow], Done tt)).
  { unfold view3d. fold left_images depth_npys pairs.
    rewrite (for_each_all_done _ _ Hall). reflexivity. }
  split; [exact E |].
  rewrite E. cbn [trace fst].
  change (geometries (CreateWindow :: ?t)) with (geometries t).
  rewrite geometries_app, Nat.add_0_r, geometries_flat_map.
  - unfold pairs. rewrite length_combine, !sorted_length. reflexivity.
  - eapply Forall_impl; [| exact Hall].
    intros p Hp. apply show_cloud_one_geometry, Hp.
Qed.

Lemma view3d_shows_every_pair_witness :
  let fs := session three_left three_right two_depth in
  let args := default_viewer_args in
  let left_images := glob fs (path_div (captured_dir args) "left") "**/*.png" in
  let depth_npys := glob fs (path_div (captured_dir args) "zed-depth") "**/*.npy" in
  let pairs := combine (sorted left_images) (sorted depth_npys) in
  view3d fs args =
    (CreateWindow :: flat_map (fun p => trace (show_cloud fs args p)) pairs
       ++ [DestroyWindow], Done tt) /\
  geometries (trace (view3d fs args)) =
    Nat.min (List.length left_images) (List.length depth_npys).
Proof.
  apply (view3d_shows_every_pair (session three_left three_right two_depth)
           default_viewer_args).
  vm_compute. repeat constructor.
Defined.

End PlaybackLoops.

(** ** The capture command *)

Section Capture.

Import DepthView ZedCapture Observations Scenarios.

Lemma returns_or_raises_seq {A B} (m : io A) (k : A -> io B) :
  returns_or_raises m -> (forall a, returns_or_raises (k a)) ->
  returns_or_raises (seq m k).
Proof.
  unfold returns_or_raises.
  destruct m as [t [a | c | n |]]; simpl; intros Hm Hk; try contradiction; auto.
  specialize (Hk a). destruct (k a) as [t' e]. exact Hk.
Qed.

Lemma returns_or_raises_lift {A} (r : result A) : returns_or_raises (lift r).
Proof. destruct r; exact I. Qed.

Lemma returns_or_raises_assert b : returns_or_raises (assert b).
Proof. destruct b; exact I. Qed.

Lemma returns_or_raises_imwrite p img : returns_or_raises (imwrite p img).
Proof. destruct img; exact I. Qed.

Ltac tame :=
  repeat first
    [ apply returns_or_raises_seq; [| intros ? ]
    | apply returns_or_raises_lift
    | apply returns_or_raises_assert
    | apply returns_or_raises_imwrite
    | exact I
    | match goal with
      | |- returns_or_raises (if ?b then _ else _) => destruct b
      end ].

Lemma capture_frame_returns_or_raises lut col dirs counter f :
  returns_or_raises (capture_frame lut col dirs counter f).
Proof.
  destruct dirs as [[leftdir rightdir] zeddepthdir].
  unfold capture_frame, bgr_of, say. tame.
Qed.

Lemma parse_args_to_params_returns_or_raises args init :
  returns_or_raises (parse_args_to_params args init).
Proof.
  unfold parse_args_to_params, parse_input, parse_resolution, say. tame.
Qed.

(** The loop ends by [exit()] with status 0, by an exception, or not at
    all. *)
Lemma capture_loop_endings lut col rp dirs script counter :
  match outcome (capture_loop lut col rp dirs script counter) with
  | Done _ => False
  | Exited n => n = 0
  | Raised _ | Waiting => True
  end.
Proof.
  revert counter.
  induction script as [| [code | f] rest IH]; intros counter.
  - exact I.
  - rewrite capture_loop_failed, outcome_seq_emit. apply IH.
  - rewrite capture_loop_grabbed, outcome_seq_emit.
    pose proof (capture_frame_returns_or_raises lut col dirs counter f) as Hf.
    unfold returns_or_raises in Hf.
    destruct (capture_frame lut col dirs counter f) as [t [quit | c | n |]] eqn:E;
      simpl in Hf; try contradiction; [| exact I].
    rewrite (seq_done _ _ t quit eq_refl). cbn [outcome snd].
    destruct quit; [reflexivity | apply IH].
Qed.

(** X10: [capture_main] never returns to its caller. It ends with exit
    status 1 (the camera did not open), with exit status 0 (the quit key),
    with an exception, or it is still waiting for frames; the [close] after
    its loop is never reached. *)
Theorem capture_main_never_returns (lut : colormap -> Z -> list Z)
    (col : depth_array -> result (ndarray Z)) (cam : camera)
    (args : capture_args) :
  match outcome (capture_main lut col cam args) with
  | Done _ => False
  | Exited n => n = 0 \/ n = 1
  | Raised _ | Waiting => True
  end /\
  ~ In CameraClose (trace (capture_main lut col cam args)).
Proof.
  split.
  - unfold capture_main.
    rewrite !outcome_seq_emit.
    pose proof (parse_args_to_params_returns_or_raises args fresh_init) as Hp.
    unfold returns_or_raises in Hp.
    destruct (parse_args_to_params args fresh_init) as [t [p | c | n |]];
      simpl in Hp; try contradiction; [| exact I].
    rewrite (seq_done _ _ t p eq_refl). cbn [outcome snd].
    rewrite outcome_seq_emit.
    destruct (negb (is_success _)).
    + rewrite outcome_seq_emit. simpl. auto.
    + rewrite !outcome_seq_emit.
      match goal with
      | |- context [capture_loop ?x1 ?x2 ?x3 ?x4 ?x5 ?x6] =>
          pose proof (capture_loop_endings x1 x2 x3 x4 x5 x6) as Hl;
          destruct (capture_loop x1 x2 x3 x4 x5 x6) as [tl [u | cls | n |]]
      end; simpl in Hl |- *; auto.
  - intros Hin.
    pose proof (capture_main_never_releases lut col cam args) as H.
    unfold only in H. rewrite Forall_forall in H.
    exact (H _ Hin).
Qed.

Lemma seq_emit {B} e (k : unit -> io B) :
  seq (emit e) k = (e :: trace (k tt), outcome (k tt)).
Proof. unfold seq, emit. destruct (k tt). reflexivity. Qed.

(** X11: when the command line is accepted and the camera does not open,
    [capture_main] has created the three output directories, printed the
    error code and exits with status 1; no window is created, no parameter
    file is saved and no frame is grabbed. *)
Theorem open_failure_is_fatal (lut : colormap -> Z -> list Z)
    (col : depth_array -> result (ndarray Z)) (cam : camera)
    (args : capture_args) (t : list event) (p : InitParameters) (code : Z) :
  parse_args_to_params args fresh_init = (t, Done p) ->
  open_code cam (set_camera_resolution HD2K (set_depth_mode ULTRA p))
    = FAILURE code ->
  capture_main lut col cam args =
    ([Mkdir (path_div (outdir args) "left");
      Mkdir (path_div (outdir args) "right");
      Mkdir (path_div (outdir args) "zed-depth")]
       ++ t
       ++ [CameraOpen (set_camera_resolution HD2K (set_depth_mode ULTRA p));
           Stdout (ErrorRepr (FAILURE code))],
     Exited 1).
Proof.
  intros Hparse Hopen. unfold capture_main.
  rewrite !seq_emit, (seq_done _ _ _ _ Hparse). cbv beta zeta.
  rewrite seq_emit, Hopen. cbn [is_success negb]. rewrite seq_emit.
  cbn [trace outcome fst snd exit app]. reflexivity.
Qed.

Lemma open_failure_is_fatal_witness :
  let cam := mk_camera (fun _ => FAILURE 3) [Grabbed quit_frame] in
  capture_main grey_lut colorize cam hd720_args =
    ([Mkdir (path_div (outdir hd720_args) "left");
      Mkdir (path_div (outdir hd720_args) "right");
      Mkdir (path_div (outdir hd720_args) "zed-depth")]
       ++ [Stdout (Text "[Sample] Using Camera in resolution HD720")]
       ++ [CameraOpen (set_camera_resolution HD2K
                         (set_depth_mode ULTRA (mk_init None (Some HD720) None)));
           Stdout (ErrorRepr (FAILURE 3))],
     Exited 1).
Proof.
  apply (open_failure_is_fatal grey_lut colorize
           (mk_camera (fun _ => FAILURE 3) [Grabbed quit_frame]) hd720_args
           [Stdout (Text "[Sample] Using Camera in resolution HD720")]
           (mk_init None (Some HD720) None) 3); reflexivity.
Defined.

Lemma seq_lift {A B} (r : result A) (k : A -> io B) :
  seq (lift r) k = match r with Ok a => k a | Raise c => ([], Raised c) end.
Proof. destruct r; simpl; [destruct (k a) |]; reflexivity. Qed.

Lemma seq_assert {B} b (k : unit -> io B) :
  seq (assert b) k = if b then k tt else ([], Raised "AssertionError").
Proof. destruct b; simpl; [destruct (k tt) |]; reflexivity. Qed.

Lemma seq_ret {A B} (a : A) (k : A -> io B) : seq (ret a) k = k a.
Proof. simpl. destruct (k a). reflexivity. Qed.

Lemma seq_assoc {A B C} (m : io A) (k1 : A -> io B) (k2 : B -> io C) :
  seq (seq m k1) k2 = seq m (fun a => seq (k1 a) k2).
Proof.
  destruct m as [t [a | c | n |]]; simpl; try reflexivity.
  destruct (k1 a) as [t1 [b | c | n |]]; simpl; try reflexivity.
  destruct (k2 b) as [t2 e]. rewrite app_assoc. reflexivity.
Qed.

Lemma seq_waiting {A B} (m : io A) (k : A -> io B) :
  outcome m = Waiting -> seq m k = (trace m, Waiting).
Proof. destruct m as [t e]. simpl. intros ->. reflexivity. Qed.

Lemma seq_imwrite {B} p img (k : unit -> io B) :
  seq (imwrite p img) k =
    match img with
    | Some i => (Imwrite p i :: trace (k tt), outcome (k tt))
    | None => ([], Raised "cv2.error")
    end.
Proof. destruct img as [i |]; [apply seq_emit | reflexivity]. Qed.

Ltac run_io :=
  repeat first
    [ rewrite seq_assoc | rewrite seq_ret | rewrite seq_emit
    | rewrite seq_lift | rewrite seq_assert | rewrite seq_imwrite
    | progress cbn [nth_error shape Nat.min Nat.eqb]
    | match goal with
      | |- context [match ?x with Ok _ => _ | Raise _ => _ end] =>
          destruct x eqn:?
      end
    | match goal with
      | |- context [match ?x with Some _ => _ | None => _ end] =>
          destruct x eqn:?
      end
    | match goal with
      | |- context [if ?b then _ else _] => destruct b eqn:?
      end
    | progress cbv beta
    | progress cbn [trace outcome fst snd] ].

(** A pass that returns has written the frame's four files, under the
    counter's index. *)
Lemma capture_frame_written lut col outdir c f t q :
  capture_frame lut col
    (path_div outdir "left", path_div outdir "right", path_div outdir "zed-depth")
    c f = (t, Done q) ->
  written t = frame_files outdir c.
Proof.
  unfold capture_frame, bgr_of, say. run_io;
    intros H; inversion H; subst; reflexivity.
Qed.

Lemma capture_frame_outcome_counter lut col dirs c c' f :
  outcome (capture_frame lut col dirs c f) =
  outcome (capture_frame lut col dirs c' f).
Proof.
  destruct dirs as [[l r] z].
  unfold capture_frame, bgr_of, say. run_io; reflexivity.
Qed.

Lemma written_app t t' : written (t ++ t') = written t ++ written t'.
Proof. apply flat_map_app. Qed.

Lemma written_nil t :
  Forall (fun e => written_path e = []) t -> written t = [].
Proof.
  induction 1 as [| e t He Ht IH]; [reflexivity |].
  unfold written in *. simpl. rewrite He, IH. reflexivity.
Qed.

Lemma capture_loop_written lut col rp outdir script :
  Forall (frame_passes lut col outdir) script ->
  forall counter,
    let run := capture_loop lut col rp
                 (path_div outdir "left", path_div outdir "right",
                  path_div outdir "zed-depth") script counter in
    outcome run = Waiting /\
    written (trace run) =
      flat_map (frame_files outdir) (List.seq counter (grabbed script)).
Proof.
  induction 1 as [| g rest Hg Hrest IH]; intros counter run; subst run.
  - split; reflexivity.
  - destruct g as [code | f].
    + rewrite capture_loop_failed, seq_emit. cbn [trace outcome fst snd].
      exact (IH counter).
    + rewrite capture_loop_grabbed, seq_emit. cbn [trace outcome fst snd].
      unfold frame_passes in Hg.
      rewrite (capture_frame_outcome_counter _ _ _ 0 counter) in Hg.
      destruct (capture_frame lut col _ counter f) as [tf ef] eqn:Ef.
      simpl in Hg. subst ef.
      rewrite (seq_done _ _ tf false eq_refl). cbn [trace outcome fst snd].
      destruct (IH (S counter)) as [Ho Hw].
      split; [exact Ho |].
      change (written (Grab rp :: ?x)) with (written x).
      rewrite written_app, Hw, (capture_frame_written _ _ _ _ _ _ _ Ef).
      reflexivity.
Qed.

(** X12: while every grabbed frame is processed without an exception and
    without the quit key, the capture keeps running, and the files written
    are, in order, the four files of frame 0, of frame 1, and so on: one
    index per grabbed frame, none for a failed grab. *)
Theorem capture_numbers_frames (lut : colormap -> Z -> list Z)
    (col : depth_array -> result (ndarray Z)) (cam : camera)
    (args : capture_args) (t : list event) (p : InitParameters) :
  parse_args_to_params args fresh_init = (t, Done p) ->
  open_code cam (set_camera_resolution HD2K (set_depth_mode ULTRA p)) = SUCCESS ->
  Forall (frame_passes lut col (outdir args)) (grabs cam) ->
  outcome (capture_main lut col cam args) = Waiting /\
  written (trace (capture_main lut col cam args)) =
    flat_map (frame_files (outdir args)) (List.seq 0 (grabbed (grabs cam))).
Proof.
  intros Hparse Hopen Hframes.
  assert (Ht : written t = []).
  { apply written_nil.
    pose proof (parse_args_to_params_only
                  (fun e => written_path e = []) args fresh_init
                  (fun m => eq_refl)) as H.
    unfold only in H. rewrite Hparse in H. exact H. }
  unfold capture_main.
  rewrite !seq_emit, (seq_done _ _ _ _ Hparse). cbv beta zeta.
  rewrite seq_emit, Hopen. cbn [is_success negb]. rewrite ?seq_emit.
  match goal with
  | |- context [capture_loop ?x1 ?x2 ?x3 ?x4 ?x5 ?x6] =>
      destruct (capture_loop_written x1 x2 x3 (outdir args) x5 Hframes x6)
        as [Ho Hw]
  end.
  rewrite (seq_waiting _ _ Ho). cbn [trace outcome fst snd].
  split; [reflexivity |].
  repeat (change (written (?e :: ?x)) with (written_path e ++ written x);
          cbn [written_path app]).
  rewrite written_app, Ht. cbn [app].
  repeat (change (written (?e :: ?x)) with (written_path e ++ written x);
          cbn [written_path app]).
  exact Hw.
Qed.

Lemma capture_numbers_frames_witness :
  let cam := mk_camera (fun _ => SUCCESS)
               [Grabbed plain_frame; GrabFailed 2; Grabbed plain_frame] in
  outcome (capture_main grey_lut colorize cam default_capture_args) = Waiting /\
  written (trace (capture_main grey_lut colorize cam default_capture_args)) =
    flat_map (frame_files (outdir default_capture_args))
             (List.seq 0 (grabbed (grabs cam))).
Proof.
  apply (capture_numbers_frames grey_lut colorize
           (mk_camera (fun _ => SUCCESS)
              [Grabbed plain_frame; GrabFailed 2; Grabbed plain_frame])
           default_capture_args
           [Stdout (Text "[Sample] Using default resolution")]
           (mk_init None None None)).
  - reflexivity.
  - reflexivity.
  - repeat constructor.
Defined.

(** When colouring the depth raises on a frame of well-formed buffers,
    the pass ends with that exception after the frame's four files have
    been written. *)
Lemma capture_frame_preview_raises lut col outdir c f cls :
  sdk_frame f -> col (depth_measure f) = Raise cls ->
  exists tf,
    capture_frame lut col
      (path_div outdir "left", path_div outdir "right",
       path_div outdir "zed-depth") c f = (tf, Raised cls) /\
    written tf = frame_files outdir c.
Proof.
  intros (Hl & Hr & (h & w & c0 & Hd) & Hu) Hcol.
  unfold capture_frame, bgr_of, say, shape_2, take_axis2, index_axis2_0,
    applyColorMap.
  rewrite Hl, Hr, Hd, Hu, Hcol.
  destruct (shape (left_data f)) as [| hl [| wl [| cl rl]]]; try discriminate.
  destruct (shape (right_data f)) as [| hr [| wr [| cr rr]]]; try discriminate.
  simpl in Hl, Hr. injection Hl as ->. injection Hr as ->.
  cbn [shape as_image Nat.eqb Nat.mul Nat.add].
  run_io; try discriminate.
  eexists. split; reflexivity.
Qed.

(** X13: when the preview of a grabbed frame raises (its buffers being as
    the SDK delivers them), the capture ends with that exception. The
    frames before it and the failing frame itself have all been written,
    under consecutive indices; the frames after it are never grabbed. *)
Theorem preview_failure_ends_capture (lut : colormap -> Z -> list Z)
    (col : depth_array -> result (ndarray Z)) (cam : camera)
    (args : capture_args) (t : list event) (p : InitParameters)
    (before after : list grab_result) (f : frame_set) (cls : string) :
  parse_args_to_params args fresh_init = (t, Done p) ->
  open_code cam (set_camera_resolution HD2K (set_depth_mode ULTRA p)) = SUCCESS ->
  grabs cam = before ++ Grabbed f :: after ->
  Forall (frame_passes lut col (outdir args)) before ->
  sdk_frame f -> col (depth_measure f) = Raise cls ->
  outcome (capture_main lut col cam args) = Raised cls /\
  written (trace (capture_main lut col cam args)) =
    flat_map (frame_files (outdir args)) (List.seq 0 (S (grabbed before))).
Proof.
  intros Hparse Hopen Hgrabs Hbefore Hsdk Hcol.
  assert (Ht : written t = []).
  { apply written_nil.
    pose proof (parse_args_to_params_only
                  (fun e => written_path e = []) args fresh_init
                  (fun m => eq_refl)) as H.
    unfold only in H. rewrite Hparse in H. exact H. }
  assert (Hloop : forall rp counter,
    let run := capture_loop lut col rp
                 (path_div (outdir args) "left", path_div (outdir args) "right",
                  path_div (outdir args) "zed-depth")
                 (before ++ Grabbed f :: after) counter in
    outcome run = Raised cls /\
    written (trace run) =
      flat_map (frame_files (outdir args))
               (List.seq counter (S (grabbed before)))).
  { intros rp. clear Hgrabs.
    induction Hbefore as [| g rest Hg Hrest IH]; intros counter run; subst run.
    - cbn [app]. rewrite capture_loop_grabbed, seq_emit.
      destruct (capture_frame_preview_raises lut col (outdir args) counter f cls
                  Hsdk Hcol) as (tf & Ef & Hw).
      rewrite Ef. cbn [seq trace outcome fst snd].
      split; [reflexivity |].
      change (written (Grab rp :: ?x)) with (written x). rewrite Hw.
      unfold grabbed. cbn [filter List.length List.seq flat_map].
      rewrite app_nil_r. reflexivity.
    - destruct g as [code | f0]; cbn [app].
      + rewrite capture_loop_failed, seq_emit. cbn [trace outcome fst snd].
        exact (IH counter).
      + rewrite capture_loop_grabbed, seq_emit. cbn [trace outcome fst snd].
        unfold frame_passes in Hg.
        rewrite (capture_frame_outcome_counter _ _ _ 0 counter) in Hg.
        destruct (capture_frame lut col _ counter f0) as [tf ef] eqn:Ef.
        simpl in Hg. subst ef.
        rewrite (seq_done _ _ tf false eq_refl). cbn [trace outcome fst snd].
        destruct (IH (S counter)) as [Ho Hw].
        split; [exact Ho |].
        change (written (Grab rp :: ?x)) with (written x).
        rewrite written_app, Hw, (capture_frame_written _ _ _ _ _ _ _ Ef).
        reflexivity. }
  unfold capture_main.
  rewrite !seq_emit, (seq_done _ _ _ _ Hparse). cbv beta zeta.
  rewrite seq_emit, Hopen. cbn [is_success negb]. rewrite ?seq_emit.
  rewrite Hgrabs.
  match goal with
  | |- context [capture_loop ?x1 ?x2 ?x3 ?x4 ?x5 ?x6] =>
      destruct (Hloop x3 x6) as [Ho Hw];
      destruct (capture_loop x1 x2 x3 x4 x5 x6) as [tl el]
  end.
  cbn [outcome snd trace fst] in Ho, Hw. subst el.
  cbn [seq trace outcome fst snd].
  split; [reflexivity |].
  repeat (change (written (?e :: ?x)) with (written_path e ++ written x);
          cbn [written_path app]).
  rewrite written_app, Ht. cbn [app].
  repeat (change (written (?e :: ?x)) with (written_path e ++ written x);
          cbn [written_path app]).
  exact Hw.
Qed.

Lemma preview_failure_ends_capture_witness :
  let cam := mk_camera (fun _ => SUCCESS)
               [Grabbed plain_frame; Grabbed blind_frame; Grabbed plain_frame] in
  outcome (capture_main grey_lut colorize cam default_capture_args)
    = Raised "ValueError" /\
  written (trace (capture_main grey_lut colorize cam default_capture_args)) =
    flat_map (frame_files (outdir default_capture_args))
             (List.seq 0 (S (grabbed [Grabbed plain_frame]))).
Proof.
  apply (preview_failure_ends_capture grey_lut colorize
           (mk_camera (fun _ => SUCCESS)
              [Grabbed plain_frame; Grabbed blind_frame; Grabbed plain_frame])
           default_capture_args
           [Stdout (Text "[Sample] Using default resolution")]
           (mk_init None None None)
           [Grabbed plain_frame] [Grabbed plain_frame] blind_frame "ValueError").
  - reflexivity.
  - reflexivity.
  - reflexivity.
  - repeat constructor.
  - repeat split. exists 0%nat, 1%nat, 3%nat. reflexivity.
  - reflexivity.
Defined.

Lemma string_length_append a b :
  String.length (a ++ b) = (String.length a + String.length b)%nat.
Proof. induction a as [| c a IH]; simpl; congruence. Qed.

Lemma string_of_list_length l : String.length (string_of_list l) = List.length l.
Proof. induction l as [| c l IH]; simpl; congruence. Qed.

Lemma list_ascii_of_string_append a b :
  list_ascii_of_string (a ++ b) =
  (list_ascii_of_string a ++ list_ascii_of_string b)%list.
Proof. induction a as [| c a IH]; simpl; congruence. Qed.

Lemma append_inv_head a x y : (a ++ x = a ++ y)%string -> x = y.
Proof. induction a as [| c a IH]; simpl; [auto |]. intros [= H]. auto. Qed.

Lemma append_inv_tail e x y : (x ++ e = y ++ e)%string -> x = y.
Proof.
  intros H. apply (f_equal list_ascii_of_string) in H.
  rewrite !list_ascii_of_string_append in H. apply app_inv_tail in H.
  rewrite <- (string_of_list_ascii_of_string x),
          <- (string_of_list_ascii_of_string y), H.
  reflexivity.
Qed.

Lemma read_index_zeros k s :
  read_index (string_of_list (repeat "0"%char k) ++ s) = read_index s.
Proof.
  induction k as [| k IH]; [reflexivity |].
  rewrite <- IH. unfold read_index.
  change (string_of_list (repeat "0"%char (S k)) ++ s)%string
    with (String "0" (string_of_list (repeat "0"%char k) ++ s)).
  cbn [NilEmpty.uint_of_string].
  destruct (NilEmpty.uint_of_string
              (string_of_list (repeat "0"%char k) ++ s)%string)
    as [d |]; reflexivity.
Qed.

Lemma read_index_fmt_05d n : read_index (fmt_05d n) = Some n.
Proof.
  unfold fmt_05d. rewrite read_index_zeros. unfold read_index.
  rewrite NilEmpty.usu. simpl. rewrite DecimalNat.Unsigned.of_to. reflexivity.
Qed.

(** X14: the index in a file name reads back as the frame counter, for
    every counter, and is at least five characters wide; so two frames get
    the same file name only if they have the same counter, and no frame
    overwrites another, also beyond 99999 frames. *)
Theorem frame_names_are_distinct (dir : path) (stem ext : string) (i j : nat) :
  read_index (fmt_05d i) = Some i /\
  (5 <= String.length (fmt_05d i))%nat /\
  (numbered dir stem i ext = numbered dir stem j ext <-> i = j).
Proof.
  split; [apply read_index_fmt_05d |]. split.
  - unfold fmt_05d. rewrite string_length_append, string_of_list_length,
      repeat_length. lia.
  - split; [| intros ->; reflexivity].
    unfold numbered, path_div. intros H.
    apply app_inj_tail in H as [_ H].
    apply append_inv_head in H. apply (append_inv_head "_") in H.
    apply append_inv_tail in H.
    pose proof (read_index_fmt_05d i) as Hi.
    rewrite H, read_index_fmt_05d in Hi. congruence.
Qed.





End Capture.
